(** * NetEmbs: the simulated transaction generator

    A shallow embedding of [Simulation/Abstract/Transaction.py] (class
    [Transaction]: [addRecord], [noise], [new]) together with the parts of
    [sqlite3], [random] and [numpy.random] that the three methods touch.

    Conventions of the embedding.
    - Python floats are rationals ([Q]): the arithmetic is exact, rounding
      is not modelled.  An amount handed to [addRecord] is a float or an
      int ([PyNum]); an int that sqlite3 binds has to fit 64 bits.
    - The database connection, the simulation clock and the two global
      pseudo-random generators are shared mutable objects; their states are
      the fields of [World] and every method is a computation in the monad
      [M] (state plus exceptions; the state survives a raised exception,
      because every write has been committed by then).
    - A pseudo-random generator is a tape of draws and a cursor.

    The second part of the file embeds [NetEmbs/utils/evaluation.py] and
    [NetEmbs/DataProcessing/prepare_data.py] over a small model of pandas
    frames (columns of ints, strings and missing values), with the metrics
    of sklearn and the four preprocessing steps as parameters. *)

From Stdlib Require Import ZArith QArith Qround String List Sorted Lia Bool
  DecimalString.
Import ListNotations.

Local Open Scope Z_scope.

(** ** Python values and exceptions *)

(** The arguments [postfix] and [id] only ever go through [str]. *)
Inductive PyVal : Type :=
| PyInt (z : Z)
| PyStr (s : string).

Definition str (v : PyVal) : string :=
  match v with
  | PyInt z => NilZero.string_of_int (Z.to_int z)
  | PyStr s => s
  end.

(** The exceptions of Python and sqlite3 that the methods can meet, and the
    two error classes of section 7 of the specification, which only
    [generate] raises. *)
Inductive exn : Type :=
| ValueError (msg : string)
| IndexError (msg : string)
| IntegrityError (msg : string)
| OverflowError (msg : string)
| ConfigurationError (msg : string)
| DataError (msg : string).

(** A Python number given as an amount: a float, or an int of any size
    (what [noise] can multiply by a float and sqlite3 can bind). *)
Inductive PyNum : Type :=
| NumFloat (x : Q)
| NumInt (z : Z).

Definition PyNum_value (v : PyNum) : Q :=
  match v with
  | NumFloat x => x
  | NumInt z => inject_Z z
  end.

(** [int(x)] on a float truncates toward zero. *)
Definition int (x : Q) : Z := Z.quot (Qnum x) (Zpos (Qden x)).

Definition Qlt_bool (x y : Q) : bool := negb (Qle_bool y x).

(** ** The database behind [self.conn] / [self.c] *)

(** Rows of the two tables.  The columns other than the row id are the ones
    the INSERT statements name. *)
Record JournalEntry : Type := mkJournalEntry {
  je_rowid : Z;
  je_Time : Q;
  je_Name : string;
  je_FA_Name : string
}.

Record EntryRecord : Type := mkEntryRecord {
  er_rowid : Z;
  er_TID : Z;
  er_Name : string;
  er_FA_Name : string;
  er_Value : Q
}.

(** Modelled from the spec: the CREATE TABLE statements of the two tables
    are not in the source.  Following 4.1 and 7 of the specification (a
    line written against a nonexistent entry is a referential-integrity
    violation) the column [EntryRecords.TID] is taken to reference the row
    id of [JournalEntries].  SQLite acts on such a declaration only on a
    connection on which [PRAGMA foreign_keys = ON] was issued; the flag
    [foreign_keys] is that per-connection setting.  The column [Value] is
    taken to keep a number as it is given (8 of the specification: amounts
    read back numerically unchanged).  [lastrowid] is the cursor attribute
    of the same name (its initial value is never read by the methods). *)
Record Connection : Type := mkConnection {
  JournalEntries : list JournalEntry;
  EntryRecords : list EntryRecord;
  foreign_keys : bool;
  lastrowid : Z
}.

(** [sqlite3.connect(DB_PATH)]: the tables are those of the database file;
    foreign-key enforcement is off on a new connection. *)
Definition sqlite3_connect (file_entries : list JournalEntry)
    (file_records : list EntryRecord) : Connection :=
  mkConnection file_entries file_records false 0.

(** [Transaction.__init__] opens the connection and issues no PRAGMA: the
    connections the methods run on are the ones with enforcement off. *)
Definition opened_by_init (c : Connection) : Prop := foreign_keys c = false.

(** Row id of an inserted row: one more than the largest row id in use, and
    1 in an empty table.  (Row ids are 64-bit; the embedding does not model
    a table whose largest row id is 2^63-1.) *)
Definition max_rowid (ids : list Z) : option Z :=
  match ids with
  | [] => None
  | i :: rest => Some (fold_left Z.max rest i)
  end.

Definition next_rowid (ids : list Z) : Z :=
  match max_rowid ids with
  | None => 1
  | Some m => m + 1
  end.

(** An INTEGER of SQLite has 64 bits.  The binding of sqlite3 converts a
    Python int parameter to one and raises [OverflowError] when it does not
    fit; a float parameter is bound as a REAL, whatever its size. *)
Definition int64 (z : Z) : bool := (- 2 ^ 63 <=? z) && (z <? 2 ^ 63).

Definition bindable (v : PyNum) : bool :=
  match v with
  | NumFloat _ => true
  | NumInt z => int64 z
  end.

(** ** Pseudo-random generators *)

Record Rng : Type := mkRng {
  tape : nat -> Q;
  pos : nat
}.

Definition advance (k : nat) (g : Rng) : Rng := mkRng (tape g) (pos g + k).

(** ** The state the methods act on *)

Record World : Type := mkWorld {
  conn : Connection;        (* self.conn and its cursor self.c *)
  env_now : Q;              (* self.env.now, a float *)
  random : Rng;             (* the generator of module random *)
  np_random : Rng           (* the global generator of numpy.random *)
}.

Definition set_conn (c : Connection) (w : World) : World :=
  mkWorld c (env_now w) (random w) (np_random w).

Definition set_random (g : Rng) (w : World) : World :=
  mkWorld (conn w) (env_now w) g (np_random w).

Definition set_np_random (g : Rng) (w : World) : World :=
  mkWorld (conn w) (env_now w) (random w) g.

(** [Transaction.__init__(name, env)] connects to the database file, whose
    tables are [file_entries] and [file_records], and keeps [env] and
    [name]; the branch on [PRINT] only prints.  [now] is the clock of
    [env], [g] and [np] are the two process-wide generators. *)
Definition Transaction_init (file_entries : list JournalEntry)
    (file_records : list EntryRecord) (now : Q) (g np : Rng) : World :=
  mkWorld (sqlite3_connect file_entries file_records) now g np.

(** ** State and exception monad *)

Inductive Result (A : Type) : Type :=
| Ok (a : A)
| Raise (e : exn).

Arguments Ok {A} a.
Arguments Raise {A} e.

Definition M (A : Type) : Type := World -> Result A * World.

Definition ret {A : Type} (a : A) : M A := fun w => (Ok a, w).

Definition raise {A : Type} (e : exn) : M A := fun w => (Raise e, w).

Definition bind {A B : Type} (m : M A) (f : A -> M B) : M B :=
  fun w =>
    match m w with
    | (Ok a, w') => f a w'
    | (Raise e, w') => (Raise e, w')
    end.

Declare Scope monad_scope.
Delimit Scope monad_scope with monad.
Notation "x <- c1 ;; c2" := (bind c1 (fun x => c2))
  (at level 61, c1 at next level, right associativity) : monad_scope.
Notation "c1 ;; c2" := (bind c1 (fun _ => c2))
  (at level 61, right associativity) : monad_scope.
Local Open Scope monad_scope.

(** [for _ in range(n): body], with the locals the body updates threaded
    through as [s].  [range(n)] is empty for [n <= 0]. *)
Fixpoint for_times {S : Type} (n : nat) (body : S -> M S) (s : S) : M S :=
  match n with
  | O => ret s
  | Datatypes.S n' => s' <- body s ;; for_times n' body s'
  end.

Definition for_range {S : Type} (n : Z) (body : S -> M S) (s : S) : M S :=
  for_times (Z.to_nat n) body s.

(** [for x in xs: body x] *)
Fixpoint for_each {A : Type} (xs : list A) (body : A -> M unit) : M unit :=
  match xs with
  | [] => ret tt
  | x :: rest => body x ;; for_each rest body
  end.

(** ** sqlite3 *)

Definition has_entry (c : Connection) (tid : Z) : bool :=
  existsb (fun e => Z.eqb (je_rowid e) tid) (JournalEntries c).

(** [self.c.execute("INSERT INTO JournalEntries (Time, Name, FA_Name)
    VALUES(?,?,?)", (time, name, fa_name))] *)
Definition execute_insert_JournalEntries (time : Q) (name fa_name : string)
    : M unit :=
  fun w =>
    let c := conn w in
    let rid := next_rowid (map je_rowid (JournalEntries c)) in
    (Ok tt,
     set_conn (mkConnection
                 (JournalEntries c ++ [mkJournalEntry rid time name fa_name])
                 (EntryRecords c) (foreign_keys c) rid) w).

(** [self.c.execute("INSERT INTO EntryRecords (TID, Name, FA_Name, Value)
    VALUES (?, ?, ?, ?)", (tid, name, fa_name, value))].  The parameters
    are bound before the statement runs: an int that does not fit 64 bits
    ends the call with [OverflowError] and nothing is written.  The column
    [Value] keeps the number given, int or float, by its value. *)
Definition execute_insert_EntryRecords (tid : Z) (name fa_name : string)
    (value : PyNum) : M unit :=
  fun w =>
    let c := conn w in
    if negb (int64 tid && bindable value) then
      (Raise (OverflowError
                "Python int too large to convert to SQLite INTEGER"), w)
    else if foreign_keys c && negb (has_entry c tid) then
      (Raise (IntegrityError "FOREIGN KEY constraint failed"), w)
    else
      let rid := next_rowid (map er_rowid (EntryRecords c)) in
      (Ok tt,
       set_conn (mkConnection
                   (JournalEntries c)
                   (EntryRecords c
                    ++ [mkEntryRecord rid tid name fa_name
                          (PyNum_value value)])
                   (foreign_keys c) rid) w).

(** [self.conn.commit()]: the rows written so far become durable; the
    tables as this connection sees them do not change. *)
Definition commit : M unit := ret tt.

(** [self.c.lastrowid] *)
Definition cursor_lastrowid : M Z := fun w => (Ok (lastrowid (conn w)), w).

(** [self.env.now] *)
Definition self_env_now : M Q := fun w => (Ok (env_now w), w).

(** ** random and numpy.random *)

(** [random.random()]: the next draw, a float in [0, 1). *)
Definition random_random : M Q :=
  fun w =>
    let g := random w in
    (Ok (tape g (pos g)), set_random (advance 1 g) w).

(** [random.uniform(a, b)] is [a + (b - a) * random()]. *)
Definition random_uniform (a b : Q) : M Q :=
  u <- random_random ;; ret (a + (b - a) * u)%Q.

Fixpoint cumsum (acc : Q) (p : list Q) : list Q :=
  match p with
  | [] => []
  | x :: rest => (acc + x)%Q :: cumsum (acc + x)%Q rest
  end.

Definition Qsum (p : list Q) : Q := fold_right Qplus 0%Q p.

(** [np.random.choice(a, p=p)] for a list [a]: the probabilities are
    checked first, then one uniform draw is located in the cumulative
    distribution (the index is the number of cumulative sums not above the
    draw).  numpy also divides the cumulative sums by the last of them,
    which the third check has shown to be 1. *)
Definition np_random_choice (a : list string) (p : list Q) : M string :=
  if negb (Nat.eqb (length a) (length p)) then
    raise (ValueError "'a' and 'p' must have same size")
  else if existsb (fun x => Qlt_bool x 0%Q) p then
    raise (ValueError "probabilities are not non-negative")
  else if negb (Qeq_bool (Qsum p) 1%Q) then
    raise (ValueError "probabilities do not sum to 1")
  else
    fun w =>
      let g := np_random w in
      let u := tape g (pos g) in
      let idx := length (filter (fun c => Qle_bool c u) (cumsum 0%Q p)) in
      let w' := set_np_random (advance 1 g) w in
      match nth_error a idx with
      | Some x => (Ok x, w')
      | None => (Raise (IndexError "index out of bounds"), w')
      end.

(** ** Simulation.CONFIG *)

(** The dictionary [NOISE_Type2] of [Simulation.CONFIG]; its four keys are
    the ones [noise] reads. *)
Record NoiseConfig : Type := mkNoiseConfig {
  freq : Q;
  num_amplitude : Q;
  noise_amplitude : Q;
  proportion : Q
}.

(** The ranges 4.2 of the specification calls valid, as a check that can
    be run: [0, 1] for the frequency and the proportion, no negative
    amplitude. *)
Definition config_in_range (cfg : NoiseConfig) : bool :=
  Qle_bool 0 (freq cfg) && Qle_bool (freq cfg) 1 &&
  Qle_bool 0 (proportion cfg) && Qle_bool (proportion cfg) 1 &&
  Qle_bool 0 (num_amplitude cfg) && Qle_bool 0 (noise_amplitude cfg).

(** The dictionary [noise] builds and returns. *)
Record NoiseDict : Type := mkNoiseDict {
  left : list Q;
  right : list Q
}.

Definition append_left (x : Q) (d : NoiseDict) : NoiseDict :=
  mkNoiseDict (left d ++ [x]) (right d).

Definition append_right (x : Q) (d : NoiseDict) : NoiseDict :=
  mkNoiseDict (left d) (right d ++ [x]).

(** ** class Transaction *)

Section Transaction.

(** [NOISE_Type2] and [randomString] come from modules that are not part
    of the source ([Simulation.CONFIG], [Simulation.utils]).
    [randomString n] reads draws of [random] from the cursor on and
    returns the string together with the number of draws it used. *)
Variable NOISE_Type2 : NoiseConfig.
Variable randomString : nat -> (nat -> Q) -> nat -> string * nat.

(** [self.name] *)
Variable self_name : string.

Definition call_randomString (n : nat) : M string :=
  fun w =>
    let g := random w in
    let '(s, k) := randomString n (tape g) (pos g) in
    (Ok s, set_random (advance k g) w).

Definition addRecord (name fa_name : string) (value : PyNum) (tid : Z)
    : M Z :=
  execute_insert_EntryRecords tid name fa_name value ;;
  commit ;;
  cursor_lastrowid.

(** One pass through the body of the [for] loop of [noise]. *)
Definition noise_body (base_amount : Q) (id : PyVal) (tid : Z)
    (noise : NoiseDict) : M NoiseDict :=
  noise_name <- call_randomString 6 ;;
  r <- random_uniform 0 (noise_amplitude NOISE_Type2) ;;
  let noise_amount := (base_amount * r)%Q in
  noise_side <- np_random_choice ["left"; "right"]%string
                  [proportion NOISE_Type2;
                   (1 - proportion NOISE_Type2)%Q] ;;
  if String.eqb noise_side "left" then
    let noise := append_left noise_amount noise in
    addRecord (noise_name ++ "_" ++ str id) noise_name
              (NumFloat (- noise_amount)%Q) tid ;;
    ret noise
  else if String.eqb noise_side "right" then
    addRecord (noise_name ++ "_" ++ str id) noise_name
              (NumFloat noise_amount) tid ;;
    ret (append_right noise_amount noise)
  else ret noise.

Definition noise (base_amount : Q) (id : PyVal) (tid : Z) : M NoiseDict :=
  let noise := mkNoiseDict [0%Q] [0%Q] in
  u <- random_random ;;
  if Qlt_bool u (freq NOISE_Type2) then
    n <- random_uniform 0 (num_amplitude NOISE_Type2) ;;
    for_range (int n) (noise_body base_amount id tid) noise
  else ret noise.

Definition new (postfix : PyVal) : M Z :=
  now <- (fun w => (Ok (env_now w), w)) ;;
  execute_insert_JournalEntries now (self_name ++ str postfix) self_name ;;
  commit ;;
  cursor_lastrowid.

(** Modelled from the spec: the driver that calls the three methods is
    not in the source.  [workflow] is the algorithm of 4.2, steps 1 to 5,
    over the source's methods: [new] for the header, one [addRecord] per
    true line, then [noise]; it returns the entry id and the dictionary
    of [noise]. *)
Definition workflow (postfix : PyVal) (base_amount : Q) (id : PyVal)
    (true_lines : list (string * string * PyNum)) : M (Z * NoiseDict) :=
  tid <- new postfix ;;
  for_each true_lines
    (fun '(name, fa_name, value) =>
       addRecord name fa_name value tid ;; ret tt) ;;
  noise <- noise base_amount id tid ;;
  ret (tid, noise).

(** Modelled from the spec: [generate] of 4.2, which is not in the source.
    It validates the configuration and its input before the first call of
    the store and then runs the algorithm.  The checks are the error
    conditions of 4.2 and 7: a configuration error for a parameter out of
    range, a data error for no true line and for true lines whose amounts
    do not add up to zero.  The specification does not order the checks;
    they are made in this order here. *)
Definition generate (postfix : PyVal) (base_amount : Q) (id : PyVal)
    (true_lines : list (string * string * PyNum)) : M (Z * NoiseDict) :=
  if negb (config_in_range NOISE_Type2) then
    raise (ConfigurationError "noise parameter out of range")
  else if Nat.eqb (length true_lines) 0 then
    raise (DataError "true_lines is empty")
  else if negb (Qeq_bool (Qsum (map (fun l => PyNum_value (snd l))
                                    true_lines)) 0) then
    raise (DataError "true_lines is unbalanced")
  else workflow postfix base_amount id true_lines.

(** Arguments of one call of the driver. *)
Record GenerateArgs : Type := mkGenerateArgs {
  ga_postfix : PyVal;
  ga_base_amount : Q;
  ga_id : PyVal;
  ga_true_lines : list (string * string * PyNum)
}.

(** A driver called once per element of [calls], one call after the other
    on the same object. *)
Fixpoint for_calls {A : Type} (f : GenerateArgs -> M A)
    (calls : list GenerateArgs) : M (list A) :=
  match calls with
  | [] => ret []
  | a :: rest =>
      r <- f a ;;
      rs <- for_calls f rest ;;
      ret (r :: rs)
  end.

Definition workflow_call (a : GenerateArgs) : M (Z * NoiseDict) :=
  workflow (ga_postfix a) (ga_base_amount a) (ga_id a) (ga_true_lines a).

Definition generate_call (a : GenerateArgs) : M (Z * NoiseDict) :=
  generate (ga_postfix a) (ga_base_amount a) (ga_id a) (ga_true_lines a).

Definition workflow_all (calls : list GenerateArgs)
    : M (list (Z * NoiseDict)) :=
  for_calls workflow_call calls.

Definition generate_all (calls : list GenerateArgs)
    : M (list (Z * NoiseDict)) :=
  for_calls generate_call calls.

(** A run: the methods of one object called in some order, whatever each
    call returns or raises. *)
Inductive Call : Type :=
| CallNew (postfix : PyVal)
| CallAddRecord (name fa_name : string) (value : PyNum) (tid : Z)
| CallNoise (base_amount : Q) (id : PyVal) (tid : Z).

Inductive Returned : Type :=
| EntryId (i : Z)
| LineId (i : Z)
| Other.

Definition do_call (c : Call) (w : World) : Returned * World :=
  match c with
  | CallNew postfix =>
      match new postfix w with
      | (Ok i, w') => (EntryId i, w')
      | (Raise _, w') => (Other, w')
      end
  | CallAddRecord name fa_name value tid =>
      match addRecord name fa_name value tid w with
      | (Ok i, w') => (LineId i, w')
      | (Raise _, w') => (Other, w')
      end
  | CallNoise base_amount id tid =>
      (Other, snd (noise base_amount id tid w))
  end.

Fixpoint run (calls : list Call) (w : World) : list Returned * World :=
  match calls with
  | [] => ([], w)
  | c :: rest =>
      let '(r, w1) := do_call c w in
      let '(rs, w2) := run rest w1 in
      (r :: rs, w2)
  end.

(** *** What one triggered call of [noise] draws

    The lines of [k] passes through the loop, read off the two tapes from
    the cursors [i] (of [random]) and [j] (of [numpy.random]) on, for a
    proportion in [0, 1]. *)
Record NoiseLine : Type := mkNoiseLine {
  nl_side : string;
  nl_name : string;
  nl_amount : Q
}.

Fixpoint noise_lines (k : nat) (base_amount : Q) (py : nat -> Q) (i : nat)
    (np : nat -> Q) (j : nat) : list NoiseLine :=
  match k with
  | O => []
  | Datatypes.S k' =>
      let '(s, c) := randomString 6 py i in
      let r := (0 + (noise_amplitude NOISE_Type2 - 0) * py (i + c)%nat)%Q in
      let side :=
        if Qlt_bool (np j) (proportion NOISE_Type2)
        then "left"%string else "right"%string in
      mkNoiseLine side s (base_amount * r)%Q
        :: noise_lines k' base_amount py (i + c + 1)%nat np (j + 1)%nat
  end.

End Transaction.

(** The number of passes of a triggered [noise] whose count draw is [u]. *)
Definition noise_count (cfg : NoiseConfig) (u : Q) : Z :=
  int (0 + (num_amplitude cfg - 0) * u)%Q.

(** The lines of one call of [noise] in the state [w]. *)
Definition noise_plan (cfg : NoiseConfig)
    (randomString : nat -> (nat -> Q) -> nat -> string * nat)
    (base_amount : Q) (w : World) : list NoiseLine :=
  let g := random w in
  if Qlt_bool (tape g (pos g)) (freq cfg) then
    noise_lines cfg randomString
      (Z.to_nat (noise_count cfg (tape g (pos g + 1)%nat)))
      base_amount (tape g) (pos g + 1 + 1)%nat
      (tape (np_random w)) (pos (np_random w))
  else [].

(** The row [noise] writes for a line. *)
Definition row_payload (r : EntryRecord) : Z * string * string * Q :=
  (er_TID r, er_Name r, er_FA_Name r, er_Value r).

Definition line_payload (id : PyVal) (tid : Z) (l : NoiseLine)
    : Z * string * string * Q :=
  (tid, (nl_name l ++ "_" ++ str id)%string, nl_name l,
   if String.eqb (nl_side l) "left" then (- nl_amount l)%Q else nl_amount l).

(** A stored line without its ids, as a true line is given. *)
Definition row_line (r : EntryRecord) : string * string * Q :=
  (er_Name r, er_FA_Name r, er_Value r).

(** A true line as it is stored: the amount by its value. *)
Definition line_value (l : string * string * PyNum) : string * string * Q :=
  let '(name, fa_name, value) := l in (name, fa_name, PyNum_value value).

(** The amounts of the true lines add up to zero. *)
Definition balanced (true_lines : list (string * string * PyNum)) : Prop :=
  (Qsum (map (fun l => PyNum_value (snd l)) true_lines) == 0)%Q.

(** The amount of a true line can be bound. *)
Definition line_bindable (l : string * string * PyNum) : bool :=
  bindable (snd l).

(** The row [workflow] writes for a true line under the entry [tid]. *)
Definition true_payload (tid : Z) (l : string * string * PyNum)
    : Z * string * string * Q :=
  let '(name, fa_name, value) := l in
  (tid, name, fa_name, PyNum_value value).

Definition amounts_on (side : string) (ls : list NoiseLine) : list Q :=
  map nl_amount (filter (fun l => String.eqb (nl_side l) side) ls).

(** Reading back the lines stored under an entry id. *)
Definition records_of (tid : Z) (c : Connection) : list EntryRecord :=
  filter (fun r => Z.eqb (er_TID r) tid) (EntryRecords c).

(** ** Predicates of the statements *)

(** Every draw of a generator lies in [0, 1). *)
Definition unit_tape (t : nat -> Q) : Prop :=
  forall n, (0 <= t n)%Q /\ (t n < 1)%Q.

Definition unit_draws (w : World) : Prop :=
  unit_tape (tape (random w)) /\ unit_tape (tape (np_random w)).

(** The ranges 4.2 of the specification calls valid. *)
Definition valid_config (cfg : NoiseConfig) : Prop :=
  (0 <= freq cfg <= 1)%Q /\ (0 <= proportion cfg <= 1)%Q /\
  (0 <= num_amplitude cfg)%Q /\ (0 <= noise_amplitude cfg)%Q.

(** What every line of a plan is made of: a side, and an amount that is the
    base amount times [random.uniform(0, noise_amplitude)] for a draw [u]. *)
Definition drawn_line (cfg : NoiseConfig) (base_amount : Q) (l : NoiseLine)
    : Prop :=
  (nl_side l = "left"%string \/ nl_side l = "right"%string) /\
  exists u,
    (0 <= u)%Q /\ (u < 1)%Q /\
    nl_amount l = (base_amount * (0 + (noise_amplitude cfg - 0) * u))%Q.

(** A table only grows, at its end. *)
Definition extends {A : Type} (old new : list A) : Prop :=
  exists added, new = old ++ added.

(** Every row id of a table is below [i]. *)
Definition above_all (ids : list Z) (i : Z) : Prop :=
  Forall (fun j => j < i) ids.

Definition entry_ids (w : World) : list Z :=
  map je_rowid (JournalEntries (conn w)).

Definition record_ids (w : World) : list Z :=
  map er_rowid (EntryRecords (conn w)).

(** What no method changes, and how the tables change. *)
Record evolves (w w' : World) : Prop := mkEvolves {
  ev_entries : extends (JournalEntries (conn w)) (JournalEntries (conn w'));
  ev_records : extends (EntryRecords (conn w)) (EntryRecords (conn w'));
  ev_foreign_keys : foreign_keys (conn w') = foreign_keys (conn w);
  ev_now : env_now w' = env_now w;
  ev_tape : tape (random w') = tape (random w);
  ev_np_tape : tape (np_random w') = tape (np_random w);
  ev_entry_ids : NoDup (entry_ids w) -> NoDup (entry_ids w');
  ev_record_ids : NoDup (record_ids w) -> NoDup (record_ids w')
}.

(** An INSERT of a line under [tid] goes through: the id fits 64 bits, and
    either foreign keys are not enforced or the entry is there. *)
Definition writable (w : World) (tid : Z) : Prop :=
  int64 tid = true /\
  (foreign_keys (conn w) = false \/ has_entry (conn w) tid = true).

(** The ids of the next [n] entries fit 64 bits. *)
Definition entry_ids_fit (w : World) (n : nat) : Prop :=
  - 2 ^ 63 <= next_rowid (entry_ids w) /\
  next_rowid (entry_ids w) + Z.of_nat n <= 2 ^ 63.

(** Every stored line references a stored entry. *)
Definition lines_reference_entries (w : World) : Prop :=
  Forall (fun r => In (er_TID r) (entry_ids w)) (EntryRecords (conn w)).

Fixpoint returned_entry_ids (rs : list Returned) : list Z :=
  match rs with
  | [] => []
  | EntryId i :: rest => i :: returned_entry_ids rest
  | _ :: rest => returned_entry_ids rest
  end.

Fixpoint returned_line_ids (rs : list Returned) : list Z :=
  match rs with
  | [] => []
  | LineId i :: rest => i :: returned_line_ids rest
  | _ :: rest => returned_line_ids rest
  end.

(** A relation between the state before and after that holds for every run
    of a computation, whatever it returns or raises. *)
Definition stable (R : World -> World -> Prop) {A : Type} (m : M A) : Prop :=
  forall w, R w (snd (m w)).

(** ** The scenario of the examples

    Section 8 of the specification: base amount 100, the true lines of a
    sale, frequency 1, number amplitude 3, noise amplitude 0.1, proportion
    0.5, on an empty database.  The draws repeat with period 11. *)

Definition sample_tape (n : nat) : Q := Z.of_nat ((5 * n + 3) mod 11) # 11.

(** A stand-in for [randomString]: one lowercase letter per draw. *)
Fixpoint sample_letters (n : nat) (py : nat -> Q) (i : nat) : string :=
  match n with
  | O => EmptyString
  | Datatypes.S n' =>
      String (Ascii.ascii_of_nat (97 + Z.to_nat (int (26 * py i)%Q)))
             (sample_letters n' py (Datatypes.S i))
  end.

Definition sample_randomString (n : nat) (py : nat -> Q) (i : nat)
    : string * nat :=
  (sample_letters n py i, n).

Definition sample_config : NoiseConfig :=
  mkNoiseConfig 1%Q 3%Q (1 # 10)%Q (1 # 2)%Q.

(** The same with proportion 1 and with proportion 0. *)
Definition left_config : NoiseConfig :=
  mkNoiseConfig 1%Q 3%Q (1 # 10)%Q 1%Q.

Definition right_config : NoiseConfig :=
  mkNoiseConfig 1%Q 3%Q (1 # 10)%Q 0%Q.

(** Every parameter out of the range the specification calls valid. *)
Definition out_of_range_config : NoiseConfig :=
  mkNoiseConfig 2%Q (- 1)%Q (- 1)%Q (3 # 2)%Q.

(** The scenario with number amplitude 0. *)
Definition zero_amplitude_config : NoiseConfig :=
  mkNoiseConfig 1%Q 0%Q (1 # 10)%Q (1 # 2)%Q.

(** The scenario with frequency 0. *)
Definition quiet_config : NoiseConfig :=
  mkNoiseConfig 0%Q 3%Q (1 # 10)%Q (1 # 2)%Q.

(** The scenario with a negative noise amplitude and proportion 1. *)
Definition negative_amplitude_config : NoiseConfig :=
  mkNoiseConfig 1%Q 3%Q (- (1 # 10))%Q 1%Q.

(** The scenario with noise amplitude 0. *)
Definition zero_noise_config : NoiseConfig :=
  mkNoiseConfig 1%Q 3%Q 0%Q (1 # 2)%Q.

Definition sample_true_lines : list (string * string * PyNum) :=
  [("ProductA", "Revenue", NumInt (- 100));
   ("Cash", "Asset", NumInt 100)]%string.

Definition sample_world : World :=
  Transaction_init [] [] 0%Q (mkRng sample_tape 0) (mkRng sample_tape 0).

(** * The evaluation and preprocessing modules

    [NetEmbs/utils/evaluation.py] and
    [NetEmbs/DataProcessing/prepare_data.py].  Both work on pandas frames;
    neither has state, so their functions are computations that return or
    raise. *)

(** ** Values of a column *)

(** A value of a column: an int or a string (a number stands for the float
    of the same value as well, pandas and dictionaries compare numbers by
    value), or [NaN], the missing value of a float column. *)
Inductive Cell : Type :=
| Value (v : PyVal)
| NaN.

(** ** Exceptions and results *)

Inductive PandasError : Type :=
| KeyError (key : Cell)
| LibraryError (msg : string).

Inductive Outcome (A : Type) : Type :=
| Returns (a : A)
| Raises (e : PandasError).

Arguments Returns {A} a.
Arguments Raises {A} e.

Definition and_then {A B : Type} (c : Outcome A) (f : A -> Outcome B)
    : Outcome B :=
  match c with
  | Returns a => f a
  | Raises e => Raises e
  end.

Declare Scope outcome_scope.
Delimit Scope outcome_scope with outcome.
Notation "x <- c1 ;; c2" := (and_then c1 (fun x => c2))
  (at level 61, c1 at next level, right associativity) : outcome_scope.

(** ** Python dictionaries and lists *)

Section Dict.

Context {K V : Type}.
Variable eqb : K -> K -> bool.

(** [d[k] = v]: the value of a key already there is replaced in place, a
    new key goes to the end (dictionaries keep insertion order). *)
Fixpoint dict_set (k : K) (v : V) (d : list (K * V)) : list (K * V) :=
  match d with
  | [] => [(k, v)]
  | (k', v') :: rest =>
      if eqb k' k then (k', v) :: rest else (k', v') :: dict_set k v rest
  end.

(** [dict(pairs)] *)
Definition dict (pairs : list (K * V)) : list (K * V) :=
  fold_left (fun d kv => dict_set (fst kv) (snd kv) d) pairs [].

(** [d.get(k)]; [d[k]] raises [KeyError] where it is [None]. *)
Fixpoint dict_get (k : K) (d : list (K * V)) : option V :=
  match d with
  | [] => None
  | (k', v) :: rest => if eqb k' k then Some v else dict_get k rest
  end.

(** [list(d.values())] *)
Definition dict_values (d : list (K * V)) : list V := map snd d.

End Dict.

(** [range(n)] *)
Definition range (n : nat) : list Z := map Z.of_nat (seq 0 n).

Section Unique.

Context {A : Type}.
Variable eqb : A -> A -> bool.

(** [Series.unique()]: the distinct values in order of appearance. *)
Fixpoint Series_unique (l : list A) : list A :=
  match l with
  | [] => []
  | x :: rest => x :: filter (fun y => negb (eqb x y)) (Series_unique rest)
  end.

End Unique.

(** ** pandas frames *)

Definition PyVal_eqb (a b : PyVal) : bool :=
  match a, b with
  | PyInt x, PyInt y => Z.eqb x y
  | PyStr s, PyStr t => String.eqb s t
  | _, _ => false
  end.

(** Equality as the hash table behind [Series.unique()] has it: every NaN
    is the same missing value. *)
Definition Cell_eqb (a b : Cell) : bool :=
  match a, b with
  | Value x, Value y => PyVal_eqb x y
  | NaN, NaN => true
  | _, _ => false
  end.

(** Equality of a key of a dictionary with a value of a float column
    looked up in it: the values of the column reach the lookup as new
    float objects, and a NaN is equal to no float, itself included. *)
Definition key_eqb (k x : Cell) : bool :=
  match k, x with
  | Value a, Value b => PyVal_eqb a b
  | _, _ => false
  end.

Definition Series : Type := list Cell.

(** A column without missing values. *)
Definition cells (l : list PyVal) : Series := map Value l.


(** A frame: its columns in order, each a label and the values of the rows.
    The labels are taken to be pairwise distinct ([distinct_columns]), as
    pandas gives [df[label]] another meaning otherwise. *)
Definition DataFrame : Type := list (string * Series).

(** [list(df)] *)
Definition columns (df : DataFrame) : list string := map fst df.


(** [df[column]] *)
Fixpoint getitem (df : DataFrame) (column : string) : Outcome Series :=
  match df with
  | [] => Raises (KeyError (Value (PyStr column)))
  | (c, s) :: rest =>
      if String.eqb c column then Returns s else getitem rest column
  end.

(** [series.apply(f)] *)
Fixpoint Series_apply {B : Type} (f : Cell -> Outcome B) (s : Series)
    : Outcome (list B) :=
  match s with
  | [] => Returns []
  | x :: rest =>
      (y <- f x ;; ys <- Series_apply f rest ;; Returns (y :: ys))%outcome
  end.

(** ** evaluation.py *)

(** The three lines every function of the module starts with:
    [str_labels = list(df[column_true].unique())],
    [real_labels = dict(zip(str_labels, range(len(str_labels))))] and the
    series [df[column_true].apply(lambda x: real_labels[x]).values]. *)
Definition real_labels (labels : Series) : list (Cell * Z) :=
  let str_labels := Series_unique Cell_eqb labels in
  dict key_eqb (combine str_labels (range (length str_labels))).

(** [real_labels[x]] *)
Definition real_labels_getitem (d : list (Cell * Z)) (x : Cell)
    : Outcome Z :=
  match dict_get key_eqb x d with
  | Some i => Returns i
  | None => Raises (KeyError x)
  end.

Definition true_values (labels : Series) : Outcome (list Z) :=
  Series_apply (real_labels_getitem (real_labels labels)) labels.

Section Evaluation.

(** The four functions of [sklearn.metrics] the module imports; the third
    argument of the second is [average_method]. *)
Variable adjusted_rand_score : list Z -> Series -> Outcome Q.
Variable adjusted_mutual_info_score :
  list Z -> Series -> string -> Outcome Q.
Variable v_measure_score : list Z -> Series -> Outcome Q.
Variable fowlkes_mallows_score : list Z -> Series -> Outcome Q.

Definition evaluate_all (df : DataFrame) (column_true column_pred : string)
    (postfix : string) (full_names : bool) : Outcome (list (string * Q)) :=
  (let output_result := [] in
   labels <- getitem df column_true ;;
   true_values <- true_values labels ;;
   predicted_values <- getitem df column_pred ;;
   if full_names then
     ari <- adjusted_rand_score true_values predicted_values ;;
     let output_result :=
       dict_set String.eqb ("Adjusted Rand index" ++ postfix) ari
                output_result in
     ami <- adjusted_mutual_info_score true_values predicted_values
              "arithmetic" ;;
     let output_result :=
       dict_set String.eqb ("Adjusted Mutual Information" ++ postfix) ami
                output_result in
     vm <- v_measure_score true_values predicted_values ;;
     let output_result :=
       dict_set String.eqb ("V-measure" ++ postfix) vm output_result in
     fmi <- fowlkes_mallows_score true_values predicted_values ;;
     let output_result :=
       dict_set String.eqb ("Fowlkes-Mallows index" ++ postfix) fmi
                output_result in
     Returns output_result
   else
     ari <- adjusted_rand_score true_values predicted_values ;;
     let output_result :=
       dict_set String.eqb ("ARI" ++ postfix) ari output_result in
     ami <- adjusted_mutual_info_score true_values predicted_values
              "arithmetic" ;;
     let output_result :=
       dict_set String.eqb ("AMI" ++ postfix) ami output_result in
     vm <- v_measure_score true_values predicted_values ;;
     let output_result :=
       dict_set String.eqb ("V-M" ++ postfix) vm output_result in
     fmi <- fowlkes_mallows_score true_values predicted_values ;;
     let output_result :=
       dict_set String.eqb ("FMI" ++ postfix) fmi output_result in
     Returns output_result)%outcome%string.

(** [postfix] and [full_names] take their defaults, [""] and [False]. *)
Definition overall_score (df : DataFrame) (column_true column_pred : string)
    : Outcome (list Q) :=
  (d <- evaluate_all df column_true column_pred "" false ;;
   Returns (dict_values d))%outcome.

Definition v_measure (df : DataFrame) (column_true column_pred : string)
    : Outcome Q :=
  (labels <- getitem df column_true ;;
   true_values <- true_values labels ;;
   predicted_values <- getitem df column_pred ;;
   v_measure_score true_values predicted_values)%outcome.

Definition fowlkes_mallows_index (df : DataFrame)
    (column_true column_pred : string) : Outcome Q :=
  (labels <- getitem df column_true ;;
   true_values <- true_values labels ;;
   predicted_values <- getitem df column_pred ;;
   fowlkes_mallows_score true_values predicted_values)%outcome.

Definition adjusted_mutual_info (df : DataFrame)
    (column_true column_pred : string) : Outcome Q :=
  (labels <- getitem df column_true ;;
   true_values <- true_values labels ;;
   predicted_values <- getitem df column_pred ;;
   adjusted_mutual_info_score true_values predicted_values
     "arithmetic")%outcome.

Definition adjusted_rand_index (df : DataFrame)
    (column_true column_pred : string) : Outcome Q :=
  (labels <- getitem df column_true ;;
   true_values <- true_values labels ;;
   predicted_values <- getitem df column_pred ;;
   adjusted_rand_score true_values predicted_values)%outcome.


End Evaluation.

(** The names of the four scores, short and full. *)
Definition score_keys (full_names : bool) : list string :=
  if full_names
  then ["Adjusted Rand index"; "Adjusted Mutual Information"; "V-measure";
        "Fowlkes-Mallows index"]%string
  else ["ARI"; "AMI"; "V-M"; "FMI"]%string.

(** ** prepare_data.py *)

Section PrepareData.

(** The four steps come from modules that are not part of the source
    ([normalize], [splitting], [unique_signatures]); each returns a frame
    or raises. *)
Variable normalize : DataFrame -> Outcome DataFrame.
Variable split_to_debit_credit : DataFrame -> Outcome DataFrame.
Variable add_from_column : DataFrame -> Outcome DataFrame.
Variable unique_BPs : DataFrame -> Outcome DataFrame.

Definition prepare_data (original_df : DataFrame)
    (split add_from norm unique : bool) : Outcome DataFrame :=
  (original_df <-
     (if split
         && negb (existsb (String.eqb "Debit") (columns original_df))
      then split_to_debit_credit original_df
      else Returns original_df) ;;
   original_df <-
     (if add_from then add_from_column original_df
      else Returns original_df) ;;
   original_df <-
     (if norm then normalize original_df else Returns original_df) ;;
   original_df <-
     (if unique then unique_BPs original_df else Returns original_df) ;;
   Returns original_df)%outcome.

End PrepareData.

(** ** Relations and sums of the further properties *)

(** The position of the first [x] in [l] ([length l] if there is none). *)
Fixpoint first_index (x : PyVal) (l : list PyVal) : nat :=
  match l with
  | [] => O
  | y :: rest =>
      if PyVal_eqb y x then O else Datatypes.S (first_index x rest)
  end.

(** Stand-ins for the metrics of sklearn in the examples: the number of
    rows whose true number equals the predicted label. *)
Definition sample_score (true_values : list Z) (predicted_values : Series)
    : Outcome Q :=
  Returns
    (inject_Z
       (Z.of_nat
          (length
             (filter (fun p => Cell_eqb (Value (PyInt (fst p))) (snd p))
                     (combine true_values predicted_values))))).

Definition sample_score_with_method (true_values : list Z)
    (predicted_values : Series) (average_method : string) : Outcome Q :=
  sample_score true_values predicted_values.


(** A frame of the scenario: the ground truth and the labels of five
    rows. *)
Definition sample_frame : DataFrame :=
  [("GroundTruth"%string,
    cells [PyStr "Sales"; PyStr "Tax"; PyStr "Sales"; PyStr "Payroll";
           PyStr "Tax"]);
   ("label"%string, cells [PyInt 0; PyInt 1; PyInt 0; PyInt 1; PyInt 1])].



(** ** Row ids *)

Lemma fold_left_max_bounds (rest : list Z) (i : Z) :
  i <= fold_left Z.max rest i /\
  Forall (fun j => j <= fold_left Z.max rest i) rest.
Proof.
  revert i. induction rest as [|x rest IH]; intro i; simpl.
  - split; [lia | constructor].
  - destruct (IH (Z.max i x)) as [Hi Hrest]. split; [lia|].
    constructor; [lia | exact Hrest].
Qed.

Lemma next_rowid_above (ids : list Z) : above_all ids (next_rowid ids).
Proof.
  unfold above_all, next_rowid. destruct ids as [|i rest]; simpl.
  - constructor.
  - destruct (fold_left_max_bounds rest i) as [Hi Hrest].
    constructor; [lia|].
    eapply Forall_impl; [|exact Hrest]. simpl. intros; lia.
Qed.

Lemma above_all_not_in (ids : list Z) (i : Z) :
  above_all ids i -> ~ In i ids.
Proof.
  unfold above_all. rewrite Forall_forall. intros H Hin.
  specialize (H i Hin). lia.
Qed.

Lemma NoDup_snoc_above (ids : list Z) (i : Z) :
  NoDup ids -> above_all ids i -> NoDup (ids ++ [i]).
Proof.
  intros Hnd Hab. apply NoDup_app; [exact Hnd | repeat constructor; intros []|].
  intros a Ha [<-|[]]. exact (above_all_not_in _ _ Hab Ha).
Qed.

(** ** The relations between states *)

Lemma extends_refl {A : Type} (l : list A) : extends l l.
Proof. exists []. now rewrite app_nil_r. Qed.

Lemma extends_trans {A : Type} (a b c : list A) :
  extends a b -> extends b c -> extends a c.
Proof.
  intros [x ->] [y ->]. exists (x ++ y). now rewrite app_assoc.
Qed.

Lemma extends_snoc {A : Type} (l : list A) (x : A) : extends l (l ++ [x]).
Proof. now exists [x]. Qed.

Lemma extends_In {A : Type} (a b : list A) (x : A) :
  extends a b -> In x a -> In x b.
Proof. intros [r ->] H. apply in_or_app. now left. Qed.

Lemma evolves_refl (w : World) : evolves w w.
Proof. constructor; auto using extends_refl. Qed.

Lemma evolves_trans (a b c : World) :
  evolves a b -> evolves b c -> evolves a c.
Proof.
  intros [e1 r1 f1 n1 t1 p1 d1 c1] [e2 r2 f2 n2 t2 p2 d2 c2].
  constructor; eauto using extends_trans; congruence.
Qed.

(** ** Composition of computations under a preorder on states *)

Section Stable.

Variable R : World -> World -> Prop.
Hypothesis R_refl : forall w, R w w.
Hypothesis R_trans : forall a b c, R a b -> R b c -> R a c.

Lemma stable_ret {A : Type} (a : A) : stable R (ret a).
Proof. intro w. apply R_refl. Qed.

Lemma stable_raise {A : Type} (e : exn) : stable R (@raise A e).
Proof. intro w. apply R_refl. Qed.

Lemma stable_bind {A B : Type} (m : M A) (f : A -> M B) :
  stable R m -> (forall a, stable R (f a)) -> stable R (bind m f).
Proof.
  intros Hm Hf w. unfold bind. specialize (Hm w).
  destruct (m w) as [[a|e] w1]; simpl in *.
  - eapply R_trans; [exact Hm | apply Hf].
  - exact Hm.
Qed.

Lemma stable_if {A : Type} (b : bool) (m1 m2 : M A) :
  stable R m1 -> stable R m2 -> stable R (if b then m1 else m2).
Proof. now destruct b. Qed.

Lemma stable_for_times {S : Type} (n : nat) (body : S -> M S) :
  (forall s, stable R (body s)) -> forall s, stable R (for_times n body s).
Proof.
  intro Hb. induction n as [|n IH]; intro s; simpl.
  - apply stable_ret.
  - apply stable_bind; auto.
Qed.

Lemma stable_for_each {A : Type} (xs : list A) (body : A -> M unit) :
  (forall x, stable R (body x)) -> stable R (for_each xs body).
Proof.
  intro Hb. induction xs as [|x xs IH]; simpl.
  - apply stable_ret.
  - apply stable_bind; auto.
Qed.

End Stable.

(** ** Every primitive and every method only appends *)

Lemma stable_execute_insert_JournalEntries (time : Q) (name fa_name : string) :
  stable evolves (execute_insert_JournalEntries time name fa_name).
Proof.
  intro w. unfold execute_insert_JournalEntries; simpl.
  constructor; simpl; auto using extends_refl, extends_snoc.
  unfold entry_ids; simpl. rewrite map_app; simpl. intro Hnd.
  apply NoDup_snoc_above; [exact Hnd | apply next_rowid_above].
Qed.

Lemma stable_execute_insert_EntryRecords (tid : Z) (name fa_name : string)
    (value : PyNum) :
  stable evolves (execute_insert_EntryRecords tid name fa_name value).
Proof.
  intro w. unfold execute_insert_EntryRecords; simpl.
  destruct (negb (int64 tid && bindable value)); [apply evolves_refl|].
  destruct (foreign_keys (conn w) && negb (has_entry (conn w) tid)); simpl.
  - apply evolves_refl.
  - constructor; simpl; auto using extends_refl, extends_snoc.
    unfold record_ids; simpl. rewrite map_app; simpl. intro Hnd.
    apply NoDup_snoc_above; [exact Hnd | apply next_rowid_above].
Qed.

Lemma stable_commit : stable evolves commit.
Proof. apply stable_ret, evolves_refl. Qed.

Lemma stable_cursor_lastrowid : stable evolves cursor_lastrowid.
Proof. intro w. apply evolves_refl. Qed.

Lemma stable_self_env_now : stable evolves self_env_now.
Proof. intro w. apply evolves_refl. Qed.

Lemma stable_random_random : stable evolves random_random.
Proof.
  intro w. unfold random_random; simpl.
  constructor; simpl; auto using extends_refl.
Qed.

Lemma stable_random_uniform (a b : Q) : stable evolves (random_uniform a b).
Proof.
  apply stable_bind;
    [exact evolves_trans | apply stable_random_random |].
  intro u. apply stable_ret, evolves_refl.
Qed.

Lemma stable_np_random_choice (a : list string) (p : list Q) :
  stable evolves (np_random_choice a p).
Proof.
  unfold np_random_choice.
  repeat (apply stable_if; [apply stable_raise, evolves_refl|]).
  intro w. simpl.
  destruct (nth_error a _); simpl;
    constructor; simpl; auto using extends_refl.
Qed.

Lemma stable_call_randomString
    (randomString : nat -> (nat -> Q) -> nat -> string * nat) (n : nat) :
  stable evolves (call_randomString randomString n).
Proof.
  intro w. unfold call_randomString.
  destruct (randomString n _ _) as [s k]; simpl.
  constructor; simpl; auto using extends_refl.
Qed.

Create HintDb stable.

(** The next step of a proof that a computation only appends. *)
Ltac stable_step :=
  match goal with
  | |- forall _, _ => intro
  | |- stable evolves (match ?x with (_, _) => _ end) => destruct x
  | |- stable evolves (bind _ _) => apply (stable_bind evolves evolves_trans)
  | |- stable evolves (ret _) => apply (stable_ret evolves evolves_refl)
  | |- stable evolves (raise _) => apply (stable_raise evolves evolves_refl)
  | |- stable evolves (if _ then _ else _) => apply stable_if
  | |- stable evolves (for_times _ _ _) =>
      apply (stable_for_times evolves evolves_refl evolves_trans)
  | |- stable evolves (for_range _ _ _) =>
      apply (stable_for_times evolves evolves_refl evolves_trans)
  | |- stable evolves (for_each _ _) =>
      apply (stable_for_each evolves evolves_refl evolves_trans)
  | |- stable evolves _ => solve [auto with stable]
  end.

#[local] Hint Resolve
  stable_execute_insert_JournalEntries stable_execute_insert_EntryRecords
  stable_commit stable_cursor_lastrowid stable_self_env_now
  stable_random_random
  stable_random_uniform stable_np_random_choice stable_call_randomString
  : stable.

Lemma stable_addRecord (name fa_name : string) (value : PyNum) (tid : Z) :
  stable evolves (addRecord name fa_name value tid).
Proof. unfold addRecord. repeat stable_step. Qed.

#[local] Hint Resolve stable_addRecord : stable.

Lemma stable_noise_body (cfg : NoiseConfig)
    (randomString : nat -> (nat -> Q) -> nat -> string * nat)
    (base_amount : Q) (id : PyVal) (tid : Z) (d : NoiseDict) :
  stable evolves (noise_body cfg randomString base_amount id tid d).
Proof. unfold noise_body. repeat stable_step. Qed.

#[local] Hint Resolve stable_noise_body : stable.

Lemma stable_noise (cfg : NoiseConfig)
    (randomString : nat -> (nat -> Q) -> nat -> string * nat)
    (base_amount : Q) (id : PyVal) (tid : Z) :
  stable evolves (noise cfg randomString base_amount id tid).
Proof. unfold noise. repeat stable_step. Qed.

Lemma stable_new (self_name : string) (postfix : PyVal) :
  stable evolves (new self_name postfix).
Proof. unfold new. repeat stable_step. Qed.

#[local] Hint Resolve stable_noise stable_new : stable.

Lemma stable_workflow (cfg : NoiseConfig)
    (randomString : nat -> (nat -> Q) -> nat -> string * nat)
    (self_name : string) (postfix : PyVal) (base_amount : Q) (id : PyVal)
    (true_lines : list (string * string * PyNum)) :
  stable evolves
    (workflow cfg randomString self_name postfix base_amount id true_lines).
Proof.
  unfold workflow. do 4 stable_step.
  - intros [[name fa_name] value]. repeat stable_step.
  - repeat stable_step.
Qed.

#[local] Hint Resolve stable_workflow : stable.

Lemma stable_generate (cfg : NoiseConfig)
    (randomString : nat -> (nat -> Q) -> nat -> string * nat)
    (self_name : string) (postfix : PyVal) (base_amount : Q) (id : PyVal)
    (true_lines : list (string * string * PyNum)) :
  stable evolves
    (generate cfg randomString self_name postfix base_amount id true_lines).
Proof. unfold generate. repeat stable_step. Qed.

#[local] Hint Resolve stable_generate : stable.

Lemma stable_for_calls {A : Type} (f : GenerateArgs -> M A)
    (calls : list GenerateArgs) :
  (forall a, stable evolves (f a)) -> stable evolves (for_calls f calls).
Proof.
  intro Hf. induction calls as [|a rest IH]; simpl; repeat stable_step.
Qed.

Lemma stable_workflow_all (cfg : NoiseConfig)
    (randomString : nat -> (nat -> Q) -> nat -> string * nat)
    (self_name : string) (calls : list GenerateArgs) :
  stable evolves (workflow_all cfg randomString self_name calls).
Proof.
  apply stable_for_calls. intro a. unfold workflow_call. auto with stable.
Qed.

Lemma stable_generate_all (cfg : NoiseConfig)
    (randomString : nat -> (nat -> Q) -> nat -> string * nat)
    (self_name : string) (calls : list GenerateArgs) :
  stable evolves (generate_all cfg randomString self_name calls).
Proof.
  apply stable_for_calls. intro a. unfold generate_call. auto with stable.
Qed.

(** ** Comparisons of rationals *)

Lemma Qlt_bool_iff (x y : Q) : Qlt_bool x y = true <-> (x < y)%Q.
Proof.
  unfold Qlt_bool. rewrite negb_true_iff. split.
  - intro H. apply Qnot_le_lt. intro Hle.
    apply Qle_bool_iff in Hle. congruence.
  - intro H. destruct (Qle_bool y x) eqn:E; [|reflexivity].
    apply Qle_bool_iff in E. exfalso. exact (Qlt_not_le _ _ H E).
Qed.

Lemma Qlt_bool_false_iff (x y : Q) : Qlt_bool x y = false <-> (y <= x)%Q.
Proof.
  unfold Qlt_bool. rewrite negb_false_iff. apply Qle_bool_iff.
Qed.

(** ** What the two inserting methods do *)

Lemma Transaction_init_opened (file_entries : list JournalEntry)
    (file_records : list EntryRecord) (now : Q) (g np : Rng) :
  opened_by_init
    (conn (Transaction_init file_entries file_records now g np)).
Proof. reflexivity. Qed.

Lemma opened_by_init_kept (w w' : World) :
  evolves w w' -> opened_by_init (conn w) -> opened_by_init (conn w').
Proof.
  unfold opened_by_init. intros E H. now rewrite (ev_foreign_keys _ _ E).
Qed.

Lemma has_entry_extends (c c' : Connection) (tid : Z) :
  extends (JournalEntries c) (JournalEntries c') ->
  has_entry c tid = true -> has_entry c' tid = true.
Proof.
  unfold has_entry. intros [added ->] H.
  rewrite existsb_app, H. reflexivity.
Qed.

Lemma writable_evolves (w w' : World) (tid : Z) :
  evolves w w' -> writable w tid -> writable w' tid.
Proof.
  intros E [Hid [H|H]]; (split; [exact Hid|]); [left | right].
  - rewrite (ev_foreign_keys _ _ E). exact H.
  - eapply has_entry_extends; [exact (ev_entries _ _ E) | exact H].
Qed.

(** Whether an INSERT goes through depends on the table of entries and on
    the enforcement flag only. *)
Lemma writable_frame (w w' : World) (tid : Z) :
  foreign_keys (conn w') = foreign_keys (conn w) ->
  JournalEntries (conn w') = JournalEntries (conn w) ->
  writable w tid -> writable w' tid.
Proof.
  unfold writable, has_entry. intros -> ->. exact (fun H => H).
Qed.

Lemma writable_opened (w : World) (tid : Z) :
  opened_by_init (conn w) -> int64 tid = true -> writable w tid.
Proof. intros Hc Hid. split; [exact Hid | left; exact Hc]. Qed.

Lemma int64_iff (z : Z) : int64 z = true <-> - 2 ^ 63 <= z < 2 ^ 63.
Proof.
  unfold int64. rewrite andb_true_iff, Z.leb_le, Z.ltb_lt. reflexivity.
Qed.

Lemma addRecord_run (name fa_name : string) (value : PyNum) (tid : Z)
    (w : World) :
  writable w tid -> bindable value = true ->
  addRecord name fa_name value tid w =
    let rid := next_rowid (record_ids w) in
    (Ok rid,
     set_conn (mkConnection (JournalEntries (conn w))
                 (EntryRecords (conn w)
                    ++ [mkEntryRecord rid tid name fa_name
                          (PyNum_value value)])
                 (foreign_keys (conn w)) rid) w).
Proof.
  intros [Hid Hw] Hv. unfold addRecord, bind, execute_insert_EntryRecords.
  rewrite Hid, Hv. cbn [andb negb].
  assert (foreign_keys (conn w) && negb (has_entry (conn w) tid) = false)
    as -> by (destruct Hw as [-> | ->];
              [reflexivity | apply andb_false_r]).
  reflexivity.
Qed.

Lemma addRecord_refused (name fa_name : string) (value : PyNum) (tid : Z)
    (w : World) :
  int64 tid = true -> bindable value = true ->
  foreign_keys (conn w) = true -> has_entry (conn w) tid = false ->
  addRecord name fa_name value tid w =
    (Raise (IntegrityError "FOREIGN KEY constraint failed"), w).
Proof.
  intros Hid Hv Hfk Hno.
  unfold addRecord, bind, execute_insert_EntryRecords.
  rewrite Hid, Hv, Hfk, Hno. reflexivity.
Qed.

(** An int that does not fit 64 bits, as the entry id or as the amount,
    ends the call before anything is written. *)
Lemma addRecord_overflow (name fa_name : string) (value : PyNum) (tid : Z)
    (w : World) :
  int64 tid && bindable value = false ->
  addRecord name fa_name value tid w =
    (Raise (OverflowError
              "Python int too large to convert to SQLite INTEGER"), w).
Proof.
  intro H. unfold addRecord, bind, execute_insert_EntryRecords.
  rewrite H. reflexivity.
Qed.

Lemma new_run (self_name : string) (postfix : PyVal) (w : World) :
  new self_name postfix w =
    let rid := next_rowid (entry_ids w) in
    (Ok rid,
     set_conn (mkConnection
                 (JournalEntries (conn w)
                    ++ [mkJournalEntry rid (env_now w)
                          (self_name ++ str postfix) self_name])
                 (EntryRecords (conn w))
                 (foreign_keys (conn w)) rid) w).
Proof. reflexivity. Qed.

Lemma has_entry_new (self_name : string) (postfix : PyVal) (w : World) :
  has_entry (conn (snd (new self_name postfix w)))
            (next_rowid (entry_ids w)) = true.
Proof.
  rewrite new_run. simpl. unfold has_entry. simpl.
  rewrite existsb_app. simpl. rewrite Z.eqb_refl.
  now rewrite orb_true_r.
Qed.

(** ** The side draw *)

Lemma np_random_choice_sides (p : Q) (w : World) :
  (0 <= p <= 1)%Q ->
  (tape (np_random w) (pos (np_random w)) < 1)%Q ->
  np_random_choice ["left"; "right"]%string [p; (1 - p)%Q] w =
    (Ok (if Qlt_bool (tape (np_random w) (pos (np_random w))) p
         then "left"%string else "right"%string),
     set_np_random (advance 1 (np_random w)) w).
Proof.
  intros [Hp0 Hp1] Hu. unfold np_random_choice.
  cbn [length Nat.eqb negb existsb].
  assert (Qlt_bool p 0 = false) as -> by now apply Qlt_bool_false_iff.
  assert (Qlt_bool (1 - p) 0 = false) as ->.
  { apply Qlt_bool_false_iff. apply (Qplus_le_l _ _ p). ring_simplify.
    exact Hp1. }
  assert (Qeq_bool (Qsum [p; (1 - p)%Q]) 1 = true) as ->.
  { apply Qeq_bool_iff. unfold Qsum. simpl. ring. }
  cbn [orb negb cumsum filter].
  set (u := tape (np_random w) (pos (np_random w))) in *.
  assert (Qle_bool (0 + p + (1 - p)) u = false) as ->.
  { destruct (Qle_bool (0 + p + (1 - p)) u) eqn:E; [|reflexivity].
    apply Qle_bool_iff in E. exfalso. apply (Qlt_not_le _ _ Hu).
    eapply Qle_trans; [|exact E]. ring_simplify. apply Qle_refl. }
  assert (Qle_bool (0 + p) u = Qle_bool p u) as ->.
  { apply Qleb_comp; [ring | reflexivity]. }
  unfold Qlt_bool. destruct (Qle_bool p u); reflexivity.
Qed.

Lemma np_random_choice_rejects (p : Q) (w : World) :
  ((p < 0)%Q \/ (1 < p)%Q) ->
  np_random_choice ["left"; "right"]%string [p; (1 - p)%Q] w =
    (Raise (ValueError "probabilities are not non-negative"), w).
Proof.
  intro H. unfold np_random_choice. cbn [length Nat.eqb negb existsb].
  assert (Qlt_bool p 0 || (Qlt_bool (1 - p) 0 || false) = true) as ->;
    [|reflexivity].
  destruct H as [H|H].
  - apply Qlt_bool_iff in H. now rewrite H.
  - assert (Qlt_bool (1 - p) 0 = true) as ->.
    { apply Qlt_bool_iff. apply (Qplus_lt_l _ _ p). ring_simplify. exact H. }
    now rewrite orb_true_r.
Qed.

(** ** One pass through the loop of [noise] *)

Lemma noise_body_run (cfg : NoiseConfig)
    (randomString : nat -> (nat -> Q) -> nat -> string * nat)
    (base_amount : Q) (id : PyVal) (tid : Z) (d : NoiseDict) (w : World)
    (s : string) (c : nat) :
  (0 <= proportion cfg <= 1)%Q ->
  unit_tape (tape (np_random w)) ->
  writable w tid ->
  randomString 6%nat (tape (random w)) (pos (random w)) = (s, c) ->
  let u := tape (random w) (pos (random w) + c)%nat in
  let amount := (base_amount * (0 + (noise_amplitude cfg - 0) * u))%Q in
  let is_left :=
    Qlt_bool (tape (np_random w) (pos (np_random w))) (proportion cfg) in
  let rid := next_rowid (record_ids w) in
  noise_body cfg randomString base_amount id tid d w =
    (Ok (if is_left then append_left amount d else append_right amount d),
     mkWorld
       (mkConnection (JournalEntries (conn w))
          (EntryRecords (conn w)
             ++ [mkEntryRecord rid tid (s ++ "_" ++ str id) s
                   (if is_left then (- amount)%Q else amount)])
          (foreign_keys (conn w)) rid)
       (env_now w)
       (mkRng (tape (random w)) (pos (random w) + c + 1))
       (mkRng (tape (np_random w)) (pos (np_random w) + 1))).
Proof.
  intros Hp Hnp Hw Hrs u amount is_left rid.
  unfold noise_body, bind at 1, call_randomString. rewrite Hrs.
  unfold bind at 1, random_uniform, bind at 1, random_random, ret at 1.
  cbn [random set_random advance tape pos].
  unfold bind at 1.
  rewrite np_random_choice_sides; [|exact Hp|apply Hnp].
  cbn [np_random set_random set_np_random random conn env_now advance
       tape pos].
  fold u. fold amount. fold is_left.
  destruct is_left.
  - cbn [String.eqb Ascii.eqb Bool.eqb]. unfold bind at 1.
    rewrite addRecord_run by (first [exact Hw | reflexivity]). reflexivity.
  - cbn [String.eqb Ascii.eqb Bool.eqb]. unfold bind at 1.
    rewrite addRecord_run by (first [exact Hw | reflexivity]). reflexivity.
Qed.

Lemma noise_body_rejects (cfg : NoiseConfig)
    (randomString : nat -> (nat -> Q) -> nat -> string * nat)
    (base_amount : Q) (id : PyVal) (tid : Z) (d : NoiseDict) (w : World) :
  ((proportion cfg < 0)%Q \/ (1 < proportion cfg)%Q) ->
  exists w',
    noise_body cfg randomString base_amount id tid d w =
      (Raise (ValueError "probabilities are not non-negative"), w') /\
    conn w' = conn w.
Proof.
  intro Hp. unfold noise_body, bind at 1, call_randomString.
  destruct (randomString 6%nat _ _) as [s c].
  unfold bind at 1, random_uniform, bind at 1, random_random, ret at 1.
  unfold bind at 1. rewrite np_random_choice_rejects by exact Hp.
  eexists. split; reflexivity.
Qed.

(** ** The loop of [noise] *)

Lemma noise_loop_run (cfg : NoiseConfig)
    (randomString : nat -> (nat -> Q) -> nat -> string * nat)
    (base_amount : Q) (id : PyVal) (tid : Z) (k : nat) :
  forall (d : NoiseDict) (w : World),
    (0 <= proportion cfg <= 1)%Q ->
    unit_tape (tape (np_random w)) ->
    writable w tid ->
    let lines :=
      noise_lines cfg randomString k base_amount
        (tape (random w)) (pos (random w))
        (tape (np_random w)) (pos (np_random w)) in
    exists d' w' rows,
      for_times k (noise_body cfg randomString base_amount id tid) d w =
        (Ok d', w') /\
      JournalEntries (conn w') = JournalEntries (conn w) /\
      EntryRecords (conn w') = EntryRecords (conn w) ++ rows /\
      map row_payload rows = map (line_payload id tid) lines /\
      left d' = left d ++ amounts_on "left" lines /\
      right d' = right d ++ amounts_on "right" lines.
Proof.
  induction k as [|k IH]; intros d w Hp Hnp Hw lines.
  - exists d, w, []. subst lines. simpl.
    rewrite !app_nil_r. repeat split; reflexivity.
  - destruct (randomString 6%nat (tape (random w)) (pos (random w)))
      as [s c] eqn:Hrs.
    pose proof (noise_body_run cfg randomString base_amount id tid d w s c
                  Hp Hnp Hw Hrs) as Hbody.
    cbv zeta in Hbody.
    subst lines. cbn [noise_lines for_times]. rewrite Hrs.
    unfold bind at 1. rewrite Hbody. clear Hbody.
    set (u := tape (random w) (pos (random w) + c)%nat).
    set (amount := (base_amount * (0 + (noise_amplitude cfg - 0) * u))%Q).
    set (is_left :=
           Qlt_bool (tape (np_random w) (pos (np_random w))) (proportion cfg)).
    match goal with
    | |- context [for_times k _ ?d1 ?w1] =>
        destruct (IH d1 w1 Hp Hnp) as (d' & w' & rows & Hrun & Hje & Her
                                       & Hrows & Hl & Hr);
        [apply (writable_frame w); [reflexivity | reflexivity | exact Hw]|]
    end.
    cbn [conn random np_random tape pos JournalEntries EntryRecords] in *.
    eexists d', w', (_ :: rows). rewrite Hrun.
    split; [reflexivity|]. split; [exact Hje|].
    split; [rewrite Her, <- app_assoc; reflexivity|].
    cbn [map]. rewrite Hrows.
    unfold amounts_on in *. cbn [filter nl_side].
    destruct is_left; cbn [String.eqb Ascii.eqb Bool.eqb map nl_amount];
      cbn [left right append_left append_right] in Hl, Hr;
      rewrite Hl, Hr, <- ?app_assoc; repeat split; reflexivity.
Qed.

Lemma noise_lines_length (cfg : NoiseConfig)
    (randomString : nat -> (nat -> Q) -> nat -> string * nat)
    (base_amount : Q) (py np : nat -> Q) (k : nat) :
  forall i j,
    length (noise_lines cfg randomString k base_amount py i np j) = k.
Proof.
  induction k as [|k IH]; intros i j; simpl; [reflexivity|].
  destruct (randomString 6%nat py i) as [s c]. simpl. now rewrite IH.
Qed.

(** ** A call of [noise] *)

Lemma noise_unfold (cfg : NoiseConfig)
    (randomString : nat -> (nat -> Q) -> nat -> string * nat)
    (base_amount : Q) (id : PyVal) (tid : Z) (w : World) :
  noise cfg randomString base_amount id tid w =
    let g := random w in
    if Qlt_bool (tape g (pos g)) (freq cfg) then
      for_times (Z.to_nat (noise_count cfg (tape g (pos g + 1)%nat)))
        (noise_body cfg randomString base_amount id tid)
        (mkNoiseDict [0%Q] [0%Q])
        (set_random (mkRng (tape g) (pos g + 1 + 1)) w)
    else (Ok (mkNoiseDict [0%Q] [0%Q]), set_random (advance 1 g) w).
Proof.
  unfold noise, bind at 1, random_random. cbv zeta.
  destruct (Qlt_bool _ _); reflexivity.
Qed.

Lemma noise_skipped (cfg : NoiseConfig)
    (randomString : nat -> (nat -> Q) -> nat -> string * nat)
    (base_amount : Q) (id : PyVal) (tid : Z) (w : World) :
  (freq cfg <= tape (random w) (pos (random w)))%Q ->
  noise cfg randomString base_amount id tid w =
    (Ok (mkNoiseDict [0%Q] [0%Q]), set_random (advance 1 (random w)) w).
Proof.
  intro H. rewrite noise_unfold. cbv zeta.
  apply Qlt_bool_false_iff in H. now rewrite H.
Qed.

Lemma noise_run (cfg : NoiseConfig)
    (randomString : nat -> (nat -> Q) -> nat -> string * nat)
    (base_amount : Q) (id : PyVal) (tid : Z) (w : World) :
  (0 <= proportion cfg <= 1)%Q ->
  unit_tape (tape (np_random w)) ->
  writable w tid ->
  let lines := noise_plan cfg randomString base_amount w in
  exists d w' rows,
    noise cfg randomString base_amount id tid w = (Ok d, w') /\
    JournalEntries (conn w') = JournalEntries (conn w) /\
    EntryRecords (conn w') = EntryRecords (conn w) ++ rows /\
    map row_payload rows = map (line_payload id tid) lines /\
    left d = 0%Q :: amounts_on "left" lines /\
    right d = 0%Q :: amounts_on "right" lines.
Proof.
  intros Hp Hnp Hw lines. subst lines. unfold noise_plan.
  rewrite noise_unfold. cbv zeta.
  destruct (Qlt_bool _ (freq cfg)).
  - apply (noise_loop_run cfg randomString base_amount id tid _
             (mkNoiseDict [0%Q] [0%Q])
             (set_random (mkRng (tape (random w)) (pos (random w) + 1 + 1)) w)
             Hp Hnp).
    apply (writable_frame w); [reflexivity | reflexivity | exact Hw].
  - eexists _, _, []. rewrite app_nil_r. repeat split; reflexivity.
Qed.

(** Whatever the configuration, a call of [noise] either returns or stops
    at the side draw of its first line, and then nothing was written. *)
Lemma noise_outcome (cfg : NoiseConfig)
    (randomString : nat -> (nat -> Q) -> nat -> string * nat)
    (base_amount : Q) (id : PyVal) (tid : Z) (w : World) :
  unit_tape (tape (np_random w)) ->
  writable w tid ->
  (exists d w', noise cfg randomString base_amount id tid w = (Ok d, w')) \/
  (exists w',
     noise cfg randomString base_amount id tid w =
       (Raise (ValueError "probabilities are not non-negative"), w') /\
     conn w' = conn w /\
     ((proportion cfg < 0)%Q \/ (1 < proportion cfg)%Q) /\
     (tape (random w) (pos (random w)) < freq cfg)%Q /\
     1 <= noise_count cfg (tape (random w) (pos (random w) + 1)%nat)).
Proof.
  intros Hnp Hw.
  destruct (Qlt_le_dec (proportion cfg) 0) as [Hneg|Hp0].
  2: destruct (Qlt_le_dec 1 (proportion cfg)) as [Hbig|Hp1].
  2, 1: assert ((proportion cfg < 0)%Q \/ (1 < proportion cfg)%Q) as Hbad
      by (auto).
  3: { left.
       destruct (noise_run cfg randomString base_amount id tid w
                   (conj Hp0 Hp1) Hnp Hw) as (d & w' & _ & H & _).
       now exists d, w'. }
  all: rewrite noise_unfold; cbv zeta;
    destruct (Qlt_bool _ (freq cfg)) eqn:Htrig;
    [|left; eexists _, _; reflexivity];
    apply Qlt_bool_iff in Htrig;
    destruct (Z.to_nat (noise_count cfg _)) as [|k] eqn:Hk;
    [left; eexists _, _; reflexivity|];
    right; cbn [for_times]; unfold bind at 1;
    match goal with
    | |- context [noise_body ?c ?r ?b ?i ?t ?d ?w1] =>
        destruct (noise_body_rejects c r b i t d w1 Hbad) as (w' & -> & Hc)
    end;
    exists w'; (split; [reflexivity|]); (split; [exact Hc|]);
    (split; [exact Hbad|]); (split; [exact Htrig|]); lia.
Qed.

(** A call of [noise] with a proportion outside [0, 1] writes nothing. *)
Lemma noise_rejected_writes_nothing (cfg : NoiseConfig)
    (randomString : nat -> (nat -> Q) -> nat -> string * nat)
    (base_amount : Q) (id : PyVal) (tid : Z) (w : World) :
  ((proportion cfg < 0)%Q \/ (1 < proportion cfg)%Q) ->
  conn (snd (noise cfg randomString base_amount id tid w)) = conn w.
Proof.
  intro Hbad. rewrite noise_unfold. cbv zeta.
  destruct (Qlt_bool _ (freq cfg)); [|reflexivity].
  destruct (Z.to_nat (noise_count cfg _)) as [|k]; [reflexivity|].
  cbn [for_times]. unfold bind at 1.
  match goal with
  | |- context [noise_body ?c ?r ?b ?i ?t ?d ?w1] =>
      destruct (noise_body_rejects c r b i t d w1 Hbad) as (w' & -> & Hc)
  end.
  exact Hc.
Qed.

(** A call of [noise] with a proportion outside [0, 1] that returns has made
    no pass through the loop. *)
Lemma noise_rejected_returns_initial (cfg : NoiseConfig)
    (randomString : nat -> (nat -> Q) -> nat -> string * nat)
    (base_amount : Q) (id : PyVal) (tid : Z) (w : World) :
  ((proportion cfg < 0)%Q \/ (1 < proportion cfg)%Q) ->
  forall d w',
    noise cfg randomString base_amount id tid w = (Ok d, w') ->
    d = mkNoiseDict [0%Q] [0%Q].
Proof.
  intros Hbad d w'. rewrite noise_unfold. cbv zeta.
  destruct (Qlt_bool _ (freq cfg)); [|now intros [= <- _]].
  destruct (Z.to_nat (noise_count cfg _)) as [|k]; [now intros [= <- _]|].
  cbn [for_times]. unfold bind at 1.
  match goal with
  | |- context [noise_body ?c ?r ?b ?i ?t ?d0 ?w1] =>
      destruct (noise_body_rejects c r b i t d0 w1 Hbad) as (w2 & -> & _)
  end.
  discriminate.
Qed.

(** ** The true lines and the driver *)

Lemma true_lines_run (true_lines : list (string * string * PyNum)) (tid : Z) :
  forall w,
    writable w tid ->
    forallb line_bindable true_lines = true ->
    exists w' rows,
      for_each true_lines
        (fun '(name, fa_name, value) =>
           bind (addRecord name fa_name value tid) (fun _ => ret tt)) w =
        (Ok tt, w') /\
      JournalEntries (conn w') = JournalEntries (conn w) /\
      EntryRecords (conn w') = EntryRecords (conn w) ++ rows /\
      map row_payload rows = map (true_payload tid) true_lines /\
      foreign_keys (conn w') = foreign_keys (conn w) /\
      env_now w' = env_now w /\
      random w' = random w /\
      np_random w' = np_random w.
Proof.
  induction true_lines as [|[[name fa_name] value] rest IH]; intros w Hw Hb.
  - exists w, []. rewrite app_nil_r. repeat split; reflexivity.
  - cbn [forallb] in Hb. apply andb_prop in Hb as [Hv Hb].
    unfold line_bindable in Hv. cbn [snd] in Hv.
    cbn [for_each]. unfold bind at 1, bind at 1.
    rewrite addRecord_run by (first [exact Hw | exact Hv]).
    cbv zeta. unfold ret at 1.
    match goal with
    | |- context [for_each rest _ ?w1] =>
        destruct (IH w1) as (w' & rows & Hrun & Hje & Her & Hrows & Hfk
                             & Hnow & Hpy & Hnp);
        [apply (writable_frame w); [reflexivity | reflexivity | exact Hw]
        |exact Hb|]
    end.
    cbn [conn set_conn JournalEntries EntryRecords foreign_keys env_now
         random np_random] in *.
    eexists w', (_ :: rows). rewrite Hrun.
    split; [reflexivity|]. split; [exact Hje|].
    split; [rewrite Her, <- app_assoc; reflexivity|].
    cbn [map]. rewrite Hrows. repeat split; assumption.
Qed.

Lemma addRecord_cases (name fa_name : string) (value : PyNum) (tid : Z)
    (w : World) :
  (writable w tid /\ bindable value = true) \/
  exists e, addRecord name fa_name value tid w = (Raise e, w).
Proof.
  unfold writable.
  destruct (int64 tid && bindable value) eqn:Hb.
  2:{ right. eexists. now apply addRecord_overflow. }
  apply andb_prop in Hb as [Hid Hv].
  destruct (foreign_keys (conn w)) eqn:Hfk; [|left; tauto].
  destruct (has_entry (conn w) tid) eqn:He; [left; tauto|].
  right. eexists. now apply addRecord_refused.
Qed.

(** Whatever the lines and the state, the loop over the true lines stores
    them in order up to the first one that cannot be stored. *)
Lemma true_lines_cases (true_lines : list (string * string * PyNum))
    (tid : Z) :
  forall w,
    exists r w' rows rest,
      for_each true_lines
        (fun '(name, fa_name, value) =>
           bind (addRecord name fa_name value tid) (fun _ => ret tt)) w =
        (r, w') /\
      JournalEntries (conn w') = JournalEntries (conn w) /\
      EntryRecords (conn w') = EntryRecords (conn w) ++ rows /\
      map (true_payload tid) true_lines =
        map row_payload rows ++ map (true_payload tid) rest /\
      (r = Ok tt -> rest = []) /\
      foreign_keys (conn w') = foreign_keys (conn w) /\
      env_now w' = env_now w /\
      random w' = random w /\
      np_random w' = np_random w.
Proof.
  induction true_lines as [|[[name fa_name] value] rest IH]; intro w.
  - exists (Ok tt), w, [], []. rewrite app_nil_r.
    repeat split; reflexivity.
  - cbn [for_each]. unfold bind at 1, bind at 1.
    destruct (addRecord_cases name fa_name value tid w) as [[Hw Hv]|[e Hr]].
    + rewrite addRecord_run by (first [exact Hw | exact Hv]).
      cbv zeta. unfold ret at 1.
      match goal with
      | |- context [for_each rest _ ?w1] =>
          destruct (IH w1) as (r & w' & rows & rest' & Hrun & Hje & Her
                               & Hrows & Hok & Hfk & Hnow & Hpy & Hnp)
      end.
      cbn [conn set_conn JournalEntries EntryRecords foreign_keys env_now
           random np_random] in *.
      eexists r, w', (_ :: rows), rest'. rewrite Hrun.
      split; [reflexivity|]. split; [exact Hje|].
      split; [rewrite Her, <- app_assoc; reflexivity|].
      split; [cbn [map app]; rewrite Hrows; reflexivity|].
      repeat split; assumption.
    + rewrite Hr.
      exists (Raise e), w, [], ((name, fa_name, value) :: rest).
      rewrite app_nil_r.
      repeat split; try reflexivity. discriminate.
Qed.

(** [workflow] up to its call of [noise], when every true line can be
    stored: the header and the true lines are stored, and [noise] runs in
    the state [w2]. *)
Lemma workflow_run (cfg : NoiseConfig)
    (randomString : nat -> (nat -> Q) -> nat -> string * nat)
    (self_name : string) (postfix : PyVal) (base_amount : Q) (id : PyVal)
    (true_lines : list (string * string * PyNum)) (w : World) :
  let tid := next_rowid (entry_ids w) in
  int64 tid = true ->
  forallb line_bindable true_lines = true ->
  exists w2 rows,
    workflow cfg randomString self_name postfix base_amount id true_lines w =
      match noise cfg randomString base_amount id tid w2 with
      | (Ok d, w3) => (Ok (tid, d), w3)
      | (Raise e, w3) => (Raise e, w3)
      end /\
    JournalEntries (conn w2) =
      JournalEntries (conn w)
        ++ [mkJournalEntry tid (env_now w) (self_name ++ str postfix)
              self_name] /\
    EntryRecords (conn w2) = EntryRecords (conn w) ++ rows /\
    map row_payload rows = map (true_payload tid) true_lines /\
    has_entry (conn w2) tid = true /\
    foreign_keys (conn w2) = foreign_keys (conn w) /\
    env_now w2 = env_now w /\
    random w2 = random w /\
    np_random w2 = np_random w.
Proof.
  intros tid Hid Hb. unfold workflow, bind at 1. rewrite new_run.
  cbv beta iota zeta. fold tid.
  match goal with
  | |- context [bind (for_each _ _) _ ?w1] =>
      destruct (true_lines_run true_lines tid w1)
        as (w2 & rows & Hrun & Hje & Her & Hrows & Hfk & Hnow & Hpy & Hnp);
      [split; [exact Hid | right; apply (has_entry_new self_name postfix w)]
      |exact Hb|]
  end.
  unfold bind at 1. rewrite Hrun.
  cbn [conn set_conn JournalEntries EntryRecords foreign_keys env_now
       random np_random] in *.
  exists w2, rows. split.
  - unfold bind at 1. destruct (noise _ _ _ _ _ w2) as [[d|e] w3]; reflexivity.
  - repeat split; try assumption.
    unfold has_entry. rewrite Hje, existsb_app. simpl.
    rewrite Z.eqb_refl. now rewrite orb_true_r.
Qed.

(** [workflow] in any state: it stores the header, then the true lines up
    to the first that cannot be stored, where it stops; after the last of
    them [noise] runs in the state [w2]. *)
Lemma workflow_lines (cfg : NoiseConfig)
    (randomString : nat -> (nat -> Q) -> nat -> string * nat)
    (self_name : string) (postfix : PyVal) (base_amount : Q) (id : PyVal)
    (true_lines : list (string * string * PyNum)) (w : World) :
  let tid := next_rowid (entry_ids w) in
  exists (r2 : Result unit) w2 rows rest,
    workflow cfg randomString self_name postfix base_amount id true_lines w =
      match r2 with
      | Ok _ =>
          match noise cfg randomString base_amount id tid w2 with
          | (Ok d, w3) => (Ok (tid, d), w3)
          | (Raise e, w3) => (Raise e, w3)
          end
      | Raise e => (Raise e, w2)
      end /\
    JournalEntries (conn w2) =
      JournalEntries (conn w)
        ++ [mkJournalEntry tid (env_now w) (self_name ++ str postfix)
              self_name] /\
    EntryRecords (conn w2) = EntryRecords (conn w) ++ rows /\
    map (true_payload tid) true_lines =
      map row_payload rows ++ map (true_payload tid) rest /\
    ((exists u, r2 = Ok u) -> rest = []) /\
    random w2 = random w /\
    np_random w2 = np_random w.
Proof.
  intro tid. unfold workflow, bind at 1. rewrite new_run.
  cbv beta iota zeta. fold tid.
  match goal with
  | |- context [bind (for_each _ _) _ ?w1] =>
      destruct (true_lines_cases true_lines tid w1)
        as (r2 & w2 & rows & rest & Hrun & Hje & Her & Hrows & Hok & Hfk
            & Hnow & Hpy & Hnp)
  end.
  unfold bind at 1. rewrite Hrun.
  cbn [conn set_conn JournalEntries EntryRecords foreign_keys env_now
       random np_random] in *.
  exists r2, w2, rows, rest. split.
  - destruct r2 as [[]|e]; [|reflexivity].
    unfold bind at 1. destruct (noise _ _ _ _ _ w2) as [[d|e] w3]; reflexivity.
  - repeat split; try assumption.
    intros [[] ->]. now apply Hok.
Qed.

Lemma true_rows_lines (tid : Z) (rows : list EntryRecord) :
  forall true_lines,
    map row_payload rows = map (true_payload tid) true_lines ->
    map row_line rows = map line_value true_lines /\
    Forall (fun r => er_TID r = tid) rows.
Proof.
  induction rows as [|r rows IH]; intros [|[[n f] v] rest] H;
    try discriminate; cbn in *.
  - split; [reflexivity | constructor].
  - injection H as Ht Hn Hf Hv Hrest.
    destruct (IH rest Hrest) as [Hl Ha].
    split; [|constructor; assumption].
    unfold row_line at 1. now rewrite Hn, Hf, Hv, Hl.
Qed.

(** The stored rows and the lines still to store, without the entry id. *)
Lemma payload_lines (tid : Z) (true_lines rest : list (string * string * PyNum))
    (rows : list EntryRecord) :
  map (true_payload tid) true_lines =
    map row_payload rows ++ map (true_payload tid) rest ->
  map line_value true_lines = map row_line rows ++ map line_value rest.
Proof.
  intro H.
  set (drop := fun p : Z * string * string * Q =>
                 (snd (fst (fst p)), snd (fst p), snd p)).
  assert (Hl : forall l, drop (true_payload tid l) = line_value l)
    by (intros [[n f] v]; reflexivity).
  assert (Hr : forall r, drop (row_payload r) = row_line r) by reflexivity.
  apply (f_equal (map drop)) in H. rewrite map_app, !map_map in H.
  rewrite !(map_ext _ _ Hl), (map_ext _ _ Hr) in H. exact H.
Qed.

Lemma fold_left_max_app (rest : list Z) (i x : Z) :
  fold_left Z.max (rest ++ [x]) i = Z.max (fold_left Z.max rest i) x.
Proof. now rewrite fold_left_app. Qed.

(** The row id after the next one. *)
Lemma next_rowid_snoc (ids : list Z) :
  next_rowid (ids ++ [next_rowid ids]) = next_rowid ids + 1.
Proof.
  unfold next_rowid, max_rowid. destruct ids as [|i rest]; [reflexivity|].
  cbn [app]. rewrite fold_left_max_app. lia.
Qed.

(** With frequency 0 a call of [workflow] stores true lines and nothing
    else, whether it returns or stops. *)
Lemma workflow_quiet (cfg : NoiseConfig)
    (randomString : nat -> (nat -> Q) -> nat -> string * nat)
    (self_name : string) (a : GenerateArgs) (w : World) :
  (freq cfg == 0)%Q ->
  unit_tape (tape (random w)) ->
  exists r w' rows rest,
    workflow_call cfg randomString self_name a w = (r, w') /\
    EntryRecords (conn w') = EntryRecords (conn w) ++ rows /\
    map line_value (ga_true_lines a) = map row_line rows ++ rest /\
    tape (random w') = tape (random w) /\
    (forall v, r = Ok v -> rest = [] /\ snd v = mkNoiseDict [0%Q] [0%Q]).
Proof.
  intros Hf Hpy. unfold workflow_call.
  destruct (workflow_lines cfg randomString self_name (ga_postfix a)
              (ga_base_amount a) (ga_id a) (ga_true_lines a) w)
    as (r2 & w2 & rows & rest & Hgen & _ & Her & Hrows & Hok & Hr & _).
  cbv zeta in Hgen. apply payload_lines in Hrows.
  destruct r2 as [u|e].
  - rewrite noise_skipped in Hgen by (rewrite Hr, Hf; apply Hpy).
    rewrite (Hok (ex_intro _ u eq_refl)) in Hrows.
    eexists _, _, rows, []. split; [exact Hgen|].
    split; [exact Her|]. split; [exact Hrows|].
    split; [cbn; now rewrite Hr|].
    intros v [= <-]. split; reflexivity.
  - eexists _, _, rows, _. split; [exact Hgen|].
    split; [exact Her|]. split; [exact Hrows|].
    split; [now rewrite Hr|]. discriminate.
Qed.

(** The same of [generate], which either stops at its checks or is
    [workflow]. *)
Lemma generate_unfold (cfg : NoiseConfig)
    (randomString : nat -> (nat -> Q) -> nat -> string * nat)
    (self_name : string) (postfix : PyVal) (base_amount : Q) (id : PyVal)
    (true_lines : list (string * string * PyNum)) (w : World) :
  (exists e,
     generate cfg randomString self_name postfix base_amount id true_lines w =
       (Raise e, w)) \/
  generate cfg randomString self_name postfix base_amount id true_lines w =
    workflow cfg randomString self_name postfix base_amount id true_lines w.
Proof.
  unfold generate.
  destruct (config_in_range cfg); [|left; eexists; reflexivity].
  destruct (length true_lines =? 0)%nat; [left; eexists; reflexivity|].
  destruct (Qeq_bool _ 0); [|left; eexists; reflexivity].
  right. reflexivity.
Qed.

Lemma generate_quiet (cfg : NoiseConfig)
    (randomString : nat -> (nat -> Q) -> nat -> string * nat)
    (self_name : string) (a : GenerateArgs) (w : World) :
  (freq cfg == 0)%Q ->
  unit_tape (tape (random w)) ->
  exists r w' rows rest,
    generate_call cfg randomString self_name a w = (r, w') /\
    EntryRecords (conn w') = EntryRecords (conn w) ++ rows /\
    map line_value (ga_true_lines a) = map row_line rows ++ rest /\
    tape (random w') = tape (random w) /\
    (forall v, r = Ok v -> rest = [] /\ snd v = mkNoiseDict [0%Q] [0%Q]).
Proof.
  intros Hf Hpy. unfold generate_call.
  destruct (generate_unfold cfg randomString self_name (ga_postfix a)
              (ga_base_amount a) (ga_id a) (ga_true_lines a) w)
    as [[e ->] | ->].
  - eexists (Raise e), w, [], _. rewrite app_nil_r.
    repeat split; try reflexivity; discriminate.
  - exact (workflow_quiet cfg randomString self_name a w Hf Hpy).
Qed.

(** Calls that each store true lines only store true lines only, one call
    after the other, up to the first call that stops. *)
Lemma for_calls_quiet (f : GenerateArgs -> M (Z * NoiseDict))
    (calls : list GenerateArgs) :
  (forall a w,
     unit_tape (tape (random w)) ->
     exists r w' rows rest,
       f a w = (r, w') /\
       EntryRecords (conn w') = EntryRecords (conn w) ++ rows /\
       map line_value (ga_true_lines a) = map row_line rows ++ rest /\
       tape (random w') = tape (random w) /\
       (forall v, r = Ok v ->
                  rest = [] /\ snd v = mkNoiseDict [0%Q] [0%Q])) ->
  forall w,
    unit_tape (tape (random w)) ->
    exists r w' rows rest,
      for_calls f calls w = (r, w') /\
      EntryRecords (conn w') = EntryRecords (conn w) ++ rows /\
      map line_value (flat_map ga_true_lines calls) =
        map row_line rows ++ rest /\
      (forall out, r = Ok out ->
                   rest = [] /\
                   Forall (fun v => snd v = mkNoiseDict [0%Q] [0%Q]) out /\
                   length out = length calls).
Proof.
  intro Hf. induction calls as [|a more IH]; intros w Hpy.
  - exists (Ok []), w, [], []. cbn. rewrite app_nil_r.
    do 3 (split; [reflexivity|]). intros out [= <-].
    repeat split; constructor.
  - cbn [for_calls flat_map]. unfold bind at 1.
    destruct (Hf a w Hpy) as (r & w1 & rows & rest & Hrun & Her & Hrows
                              & Ht & Hok).
    rewrite Hrun. rewrite map_app, Hrows.
    destruct r as [v|e].
    + destruct (Hok v eq_refl) as [-> Hv]. rewrite app_nil_r.
      destruct (IH w1) as (r' & w' & rows' & rest' & Hrun' & Her' & Hrows'
                           & Hok').
      { now rewrite Ht. }
      unfold bind at 1. rewrite Hrun'.
      destruct r' as [out|e].
      * destruct (Hok' out eq_refl) as (-> & Hout & Hlen).
        exists (Ok (v :: out)), w', (rows ++ rows'), []. unfold ret.
        split; [reflexivity|].
        split; [now rewrite Her', Her, app_assoc|].
        split; [now rewrite Hrows', map_app, !app_nil_r|].
        intros out' [= <-]. split; [reflexivity|].
        split; [now constructor | cbn; now rewrite Hlen].
      * exists (Raise e), w', (rows ++ rows'), rest'.
        split; [reflexivity|].
        split; [now rewrite Her', Her, app_assoc|].
        split; [now rewrite Hrows', map_app, app_assoc|].
        discriminate.
    + exists (Raise e), w1, rows,
        (rest ++ map line_value (flat_map ga_true_lines more)).
      split; [reflexivity|]. split; [exact Her|].
      split; [now rewrite app_assoc|]. discriminate.
Qed.

(** With frequency 0, entry ids within 64 bits and amounts that can be
    bound, every call of [workflow] stores its true lines and nothing
    else. *)
Lemma workflow_all_quiet (cfg : NoiseConfig)
    (randomString : nat -> (nat -> Q) -> nat -> string * nat)
    (self_name : string) (calls : list GenerateArgs) :
  (freq cfg == 0)%Q ->
  forall w,
    unit_tape (tape (random w)) ->
    entry_ids_fit w (length calls) ->
    forallb line_bindable (flat_map ga_true_lines calls) = true ->
    exists out w' rows,
      workflow_all cfg randomString self_name calls w = (Ok out, w') /\
      EntryRecords (conn w') = EntryRecords (conn w) ++ rows /\
      map row_line rows = map line_value (flat_map ga_true_lines calls) /\
      Forall (fun r => snd r = mkNoiseDict [0%Q] [0%Q]) out /\
      length out = length calls.
Proof.
  intro Hf. unfold workflow_all.
  induction calls as [|a rest IH]; intros w Hpy [Hlo Hhi] Hb.
  - exists [], w, []. cbn. rewrite app_nil_r. repeat split; constructor.
  - cbn [for_calls flat_map]. unfold bind at 1, workflow_call at 1.
    cbn [flat_map] in Hb. rewrite forallb_app in Hb.
    apply andb_prop in Hb as [Hb1 Hb2]. cbn [length] in Hhi.
    destruct (workflow_run cfg randomString self_name (ga_postfix a)
                (ga_base_amount a) (ga_id a) (ga_true_lines a) w)
      as (w2 & rows & Hgen & Hje & Her & Hrows & _ & _ & _ & Hr & _);
      [apply int64_iff; lia | exact Hb1 |].
    rewrite Hgen, noise_skipped.
    2:{ rewrite Hr, Hf. apply Hpy. }
    destruct (IH (set_random (advance 1 (random w2)) w2))
      as (out & w' & rows' & Hrun & Her' & Hrows' & Hout & Hlen).
    { cbn. rewrite Hr. exact Hpy. }
    { unfold entry_ids_fit, entry_ids. cbn [conn set_random].
      rewrite Hje, map_app. cbn [map je_rowid].
      fold (entry_ids w). rewrite next_rowid_snoc. lia. }
    { exact Hb2. }
    unfold bind at 1. rewrite Hrun. unfold ret.
    eexists _, w', (rows ++ rows'). split; [reflexivity|].
    split; [rewrite Her'; cbn; rewrite Her, app_assoc; reflexivity|].
    split; [|split].
    + rewrite !map_app, Hrows'.
      now rewrite (proj1 (true_rows_lines _ _ _ Hrows)).
    + constructor; [reflexivity | exact Hout].
    + cbn. now rewrite Hlen.
Qed.

(** ** The run of several calls *)

Lemma StronglySorted_lt_NoDup (l : list Z) :
  StronglySorted Z.lt l -> NoDup l.
Proof.
  induction 1 as [|a l Hs IH Hall]; constructor; [|exact IH].
  intro Hin. rewrite Forall_forall in Hall. specialize (Hall a Hin). lia.
Qed.

Lemma above_all_extends (old new : list Z) (i : Z) :
  extends old new -> above_all new i -> above_all old i.
Proof.
  unfold above_all. intros [added ->] H.
  apply Forall_app in H. tauto.
Qed.

Lemma extends_map {A B : Type} (f : A -> B) (old new : list A) :
  extends old new -> extends (map f old) (map f new).
Proof. intros [added ->]. exists (map f added). apply map_app. Qed.


Lemma do_call_evolves (cfg : NoiseConfig)
    (randomString : nat -> (nat -> Q) -> nat -> string * nat)
    (self_name : string) (c : Call) (w : World) :
  evolves w (snd (do_call cfg randomString self_name c w)).
Proof.
  destruct c as [postfix | name fa_name value tid | base_amount id tid];
    cbn [do_call].
  - pose proof (stable_new self_name postfix w) as H.
    destruct (new self_name postfix w) as [[i|e] w1]; exact H.
  - pose proof (stable_addRecord name fa_name value tid w) as H.
    destruct (addRecord name fa_name value tid w) as [[i|e] w1]; exact H.
  - apply stable_noise.
Qed.

Lemma run_evolves (cfg : NoiseConfig)
    (randomString : nat -> (nat -> Q) -> nat -> string * nat)
    (self_name : string) (calls : list Call) :
  forall w, evolves w (snd (run cfg randomString self_name calls w)).
Proof.
  induction calls as [|c rest IH]; intro w; cbn [run].
  - apply evolves_refl.
  - pose proof (do_call_evolves cfg randomString self_name c w) as H1.
    destruct (do_call cfg randomString self_name c w) as [r w1].
    specialize (IH w1).
    destruct (run cfg randomString self_name rest w1) as [rs w2].
    exact (evolves_trans _ _ _ H1 IH).
Qed.

(** The ids a run returns are increasing, above the ids stored before the
    run and stored after it. *)
Lemma run_ids (cfg : NoiseConfig)
    (randomString : nat -> (nat -> Q) -> nat -> string * nat)
    (self_name : string) (calls : list Call) :
  forall w,
    let out := run cfg randomString self_name calls w in
    (StronglySorted Z.lt (returned_entry_ids (fst out)) /\
     Forall (fun i => above_all (entry_ids w) i /\ In i (entry_ids (snd out)))
            (returned_entry_ids (fst out))) /\
    (StronglySorted Z.lt (returned_line_ids (fst out)) /\
     Forall (fun i => above_all (record_ids w) i /\ In i (record_ids (snd out)))
            (returned_line_ids (fst out))).
Proof.
  induction calls as [|c rest IH]; intro w; cbn [run].
  - cbn. repeat split; constructor.
  - pose proof (do_call_evolves cfg randomString self_name c w) as Hev.
    destruct (do_call cfg randomString self_name c w) as [r w1] eqn:Hc.
    cbn [snd] in Hev.
    pose proof (run_evolves cfg randomString self_name rest w1) as Hev2.
    specialize (IH w1). cbv zeta in IH.
    destruct (run cfg randomString self_name rest w1) as [rs w2].
    cbn [fst snd] in *. destruct IH as [[Se Fe] [Sl Fl]].
    assert (He : extends (entry_ids w) (entry_ids w1))
      by (apply extends_map, (ev_entries _ _ Hev)).
    assert (Hl : extends (record_ids w) (record_ids w1))
      by (apply extends_map, (ev_records _ _ Hev)).
    assert (He2 : extends (entry_ids w1) (entry_ids w2))
      by (apply extends_map, (ev_entries _ _ Hev2)).
    assert (Hl2 : extends (record_ids w1) (record_ids w2))
      by (apply extends_map, (ev_records _ _ Hev2)).
    assert (Fe' : Forall (fun i => above_all (entry_ids w) i /\
                                   In i (entry_ids w2))
                         (returned_entry_ids rs)).
    { eapply Forall_impl; [|exact Fe]. cbv beta. intros i [Ha Hi].
      split; [eapply above_all_extends; eassumption | exact Hi]. }
    assert (Fl' : Forall (fun i => above_all (record_ids w) i /\
                                   In i (record_ids w2))
                         (returned_line_ids rs)).
    { eapply Forall_impl; [|exact Fl]. cbv beta. intros i [Ha Hi].
      split; [eapply above_all_extends; eassumption | exact Hi]. }
    destruct c as [postfix | name fa_name value tid | base_amount id tid];
      cbn [do_call] in Hc.
    + rewrite new_run in Hc. cbv zeta in Hc. injection Hc as <- <-.
      cbn [returned_entry_ids returned_line_ids].
      split; [|split; assumption]. split.
      * constructor; [exact Se|].
        eapply Forall_impl; [|exact Fe]. cbv beta. intros i [Ha _].
        unfold above_all, entry_ids in Ha. cbn in Ha.
        rewrite map_app, Forall_app in Ha. destruct Ha as [_ Ha].
        now inversion Ha.
      * constructor; [|exact Fe']. split; [apply next_rowid_above|].
        eapply extends_In; [exact He2|].
        unfold entry_ids. cbn. rewrite map_app. apply in_or_app.
        right. now left.
    + destruct (addRecord_cases name fa_name value tid w)
        as [[Hw Hv]|[e Hr]].
      * rewrite addRecord_run in Hc by (first [exact Hw | exact Hv]).
        cbv zeta in Hc.
        injection Hc as <- <-.
        cbn [returned_entry_ids returned_line_ids].
        split; [split; assumption|]. split.
        -- constructor; [exact Sl|].
           eapply Forall_impl; [|exact Fl]. cbv beta. intros i [Ha _].
           unfold above_all, record_ids in Ha. cbn in Ha.
           rewrite map_app, Forall_app in Ha. destruct Ha as [_ Ha].
           now inversion Ha.
        -- constructor; [|exact Fl']. split; [apply next_rowid_above|].
           eapply extends_In; [exact Hl2|].
           unfold record_ids. cbn. rewrite map_app. apply in_or_app.
           right. now left.
      * rewrite Hr in Hc. injection Hc as <- <-.
        cbn [returned_entry_ids returned_line_ids].
        repeat split; assumption.
    + injection Hc as <- <-.
      cbn [returned_entry_ids returned_line_ids].
      repeat split; assumption.
Qed.

(** ** The number of lines of a call of [noise] *)

Lemma int_nonneg (x : Q) : (0 <= x)%Q -> int x = Qfloor x.
Proof.
  intro H. destruct x as [n d]. unfold int, Qfloor. cbn [Qnum Qden].
  apply Z.quot_div_nonneg; [|reflexivity].
  unfold Qle in H. cbn in H. lia.
Qed.

Lemma noise_count_bounds (cfg : NoiseConfig) (u : Q) :
  (0 <= u)%Q -> (u < 1)%Q -> (0 < num_amplitude cfg)%Q ->
  0 <= noise_count cfg u /\
  (inject_Z (noise_count cfg u) < num_amplitude cfg)%Q.
Proof.
  intros Hu0 Hu1 Ha. unfold noise_count.
  set (x := (0 + (num_amplitude cfg - 0) * u)%Q).
  assert (Hx : (x == num_amplitude cfg * u)%Q) by (unfold x; ring).
  assert (Hx0 : (0 <= x)%Q).
  { rewrite Hx. apply Qmult_le_0_compat; [apply Qlt_le_weak|]; assumption. }
  assert (Hx1 : (x < num_amplitude cfg)%Q).
  { rewrite Hx. rewrite <- (Qmult_1_r (num_amplitude cfg)) at 2.
    apply Qmult_lt_l; assumption. }
  rewrite (int_nonneg x Hx0). split.
  - change 0 with (Qfloor 0). now apply Qfloor_resp_le.
  - eapply Qle_lt_trans; [apply Qfloor_le | exact Hx1].
Qed.

Lemma int_nonpos (x : Q) : (x <= 0)%Q -> int x <= 0.
Proof.
  intro H. destruct x as [n d]. unfold int. cbn [Qnum Qden].
  unfold Qle in H. cbn in H.
  assert (Hn : 0 <= - n) by lia.
  pose proof (Z.quot_pos (- n) (Z.pos d) Hn ltac:(lia)) as Hq.
  rewrite Z.quot_opp_l in Hq by lia. lia.
Qed.

Lemma noise_count_nonpos (cfg : NoiseConfig) (u : Q) :
  (0 <= u)%Q -> (num_amplitude cfg <= 0)%Q -> noise_count cfg u <= 0.
Proof.
  intros Hu Ha. unfold noise_count. apply int_nonpos.
  setoid_replace (0 + (num_amplitude cfg - 0) * u)%Q
    with (- ((- num_amplitude cfg) * u))%Q by ring.
  apply (Qopp_le_compat 0). apply Qmult_le_0_compat; [|exact Hu].
  apply (Qopp_le_compat _ 0). exact Ha.
Qed.

Lemma noise_count_unit (cfg : NoiseConfig) (u : Q) :
  (0 <= u)%Q -> (u < 1)%Q -> (num_amplitude cfg == 1)%Q ->
  noise_count cfg u = 0.
Proof.
  intros Hu0 Hu1 Ha.
  destruct (noise_count_bounds cfg u Hu0 Hu1) as [H0 H1].
  { now rewrite Ha. }
  rewrite Ha in H1. change 1%Q with (inject_Z 1) in H1.
  rewrite <- Zlt_Qlt in H1. lia.
Qed.

Lemma noise_plan_length (cfg : NoiseConfig)
    (randomString : nat -> (nat -> Q) -> nat -> string * nat)
    (base_amount : Q) (w : World) :
  length (noise_plan cfg randomString base_amount w) =
    if Qlt_bool (tape (random w) (pos (random w))) (freq cfg)
    then Z.to_nat (noise_count cfg (tape (random w) (pos (random w) + 1)%nat))
    else 0%nat.
Proof.
  unfold noise_plan. cbv zeta. destruct (Qlt_bool _ _); [|reflexivity].
  apply noise_lines_length.
Qed.

(** The lines a call of [noise] writes, whatever the configuration: as
    many as planned for a proportion in [0, 1], none otherwise. *)
Lemma noise_rows (cfg : NoiseConfig)
    (randomString : nat -> (nat -> Q) -> nat -> string * nat)
    (base_amount : Q) (id : PyVal) (tid : Z) (w : World) :
  unit_tape (tape (np_random w)) ->
  writable w tid ->
  exists r w' rows,
    noise cfg randomString base_amount id tid w = (r, w') /\
    JournalEntries (conn w') = JournalEntries (conn w) /\
    EntryRecords (conn w') = EntryRecords (conn w) ++ rows /\
    (length rows <= length (noise_plan cfg randomString base_amount w))%nat /\
    ((0 <= proportion cfg <= 1)%Q ->
     (exists d, r = Ok d) /\
     length rows = length (noise_plan cfg randomString base_amount w)).
Proof.
  intros Hnp Hw.
  destruct (Qlt_le_dec (proportion cfg) 0) as [Hneg|Hp0];
    [|destruct (Qlt_le_dec 1 (proportion cfg)) as [Hbig|Hp1]].
  3:{ destruct (noise_run cfg randomString base_amount id tid w
                  (conj Hp0 Hp1) Hnp Hw)
        as (d & w' & rows & Hrun & Hje & Her & Hrows & _).
      assert (Hlen : length rows
                     = length (noise_plan cfg randomString base_amount w)).
      { rewrite <- (length_map row_payload), Hrows. apply length_map. }
      exists (Ok d), w', rows. repeat split; try assumption.
      - rewrite Hlen. apply Nat.le_refl.
      - now exists d. }
  all: pose proof (noise_rejected_writes_nothing cfg randomString base_amount
                     id tid w) as Hc;
    destruct (noise cfg randomString base_amount id tid w) as [r w'];
    cbn [snd] in Hc; specialize (Hc ltac:(auto));
    exists r, w', []; rewrite Hc, app_nil_r;
    (split; [reflexivity|]); (split; [reflexivity|]);
    (split; [reflexivity|]); (split; [apply Nat.le_0_l|]);
    intros [H0 H1]; exfalso.
  - exact (Qlt_not_le _ _ Hneg H0).
  - exact (Qlt_not_le _ _ Hbig H1).
Qed.

(** ** The lines of a call of [noise] *)

Lemma noise_lines_drawn (cfg : NoiseConfig)
    (randomString : nat -> (nat -> Q) -> nat -> string * nat)
    (base_amount : Q) (py np : nat -> Q) (k : nat) :
  unit_tape py ->
  forall i j,
    Forall (drawn_line cfg base_amount)
           (noise_lines cfg randomString k base_amount py i np j).
Proof.
  intro Hpy. induction k as [|k IH]; intros i j; cbn [noise_lines].
  - constructor.
  - destruct (randomString 6%nat py i) as [s c]. constructor; [|apply IH].
    split.
    + cbn [nl_side]. destruct (Qlt_bool _ _); auto.
    + exists (py (i + c)%nat). destruct (Hpy (i + c)%nat) as [H0 H1].
      repeat split; assumption.
Qed.

Lemma noise_lines_all_left (cfg : NoiseConfig)
    (randomString : nat -> (nat -> Q) -> nat -> string * nat)
    (base_amount : Q) (py np : nat -> Q) (k : nat) :
  (proportion cfg == 1)%Q ->
  unit_tape np ->
  forall i j,
    Forall (fun l => nl_side l = "left"%string)
           (noise_lines cfg randomString k base_amount py i np j).
Proof.
  intros Hp Hnp. induction k as [|k IH]; intros i j; cbn [noise_lines].
  - constructor.
  - destruct (randomString 6%nat py i) as [s c]. constructor; [|apply IH].
    cbn [nl_side].
    assert (Qlt_bool (np j) (proportion cfg) = true) as ->; [|reflexivity].
    apply Qlt_bool_iff. rewrite Hp. apply Hnp.
Qed.

Lemma noise_lines_all_right (cfg : NoiseConfig)
    (randomString : nat -> (nat -> Q) -> nat -> string * nat)
    (base_amount : Q) (py np : nat -> Q) (k : nat) :
  (proportion cfg == 0)%Q ->
  unit_tape np ->
  forall i j,
    Forall (fun l => nl_side l = "right"%string)
           (noise_lines cfg randomString k base_amount py i np j).
Proof.
  intros Hp Hnp. induction k as [|k IH]; intros i j; cbn [noise_lines].
  - constructor.
  - destruct (randomString 6%nat py i) as [s c]. constructor; [|apply IH].
    cbn [nl_side].
    assert (Qlt_bool (np j) (proportion cfg) = false) as ->; [|reflexivity].
    apply Qlt_bool_false_iff. rewrite Hp. apply Hnp.
Qed.

(** The three facts for the plan of a call. *)
Lemma noise_plan_cases (cfg : NoiseConfig)
    (randomString : nat -> (nat -> Q) -> nat -> string * nat)
    (base_amount : Q) (w : World) (P : NoiseLine -> Prop) :
  (forall k i j,
     Forall P (noise_lines cfg randomString k base_amount
                 (tape (random w)) i (tape (np_random w)) j)) ->
  Forall P (noise_plan cfg randomString base_amount w).
Proof.
  intro H. unfold noise_plan. cbv zeta.
  destruct (Qlt_bool _ _); [apply H | constructor].
Qed.

Lemma amounts_on_all (side : string) (ls : list NoiseLine) :
  Forall (fun l => nl_side l = side) ls ->
  amounts_on side ls = map nl_amount ls.
Proof.
  unfold amounts_on. induction 1 as [|l ls Hl _ IH]; cbn; [reflexivity|].
  rewrite Hl, String.eqb_refl. cbn. now rewrite IH.
Qed.

Lemma amounts_on_none (side other : string) (ls : list NoiseLine) :
  String.eqb other side = false ->
  Forall (fun l => nl_side l = other) ls ->
  amounts_on side ls = [].
Proof.
  unfold amounts_on. intro Hne. induction 1 as [|l ls Hl _ IH]; cbn;
    [reflexivity|].
  now rewrite Hl, Hne.
Qed.

Lemma drawn_amount_nonneg (cfg : NoiseConfig) (base_amount : Q)
    (l : NoiseLine) :
  (0 <= base_amount)%Q -> (0 <= noise_amplitude cfg)%Q ->
  drawn_line cfg base_amount l -> (0 <= nl_amount l)%Q.
Proof.
  intros Hb Ha [_ (u & Hu0 & _ & ->)].
  apply Qmult_le_0_compat; [exact Hb|].
  setoid_replace (0 + (noise_amplitude cfg - 0) * u)%Q
    with (noise_amplitude cfg * u)%Q by ring.
  now apply Qmult_le_0_compat.
Qed.

Lemma uniform_draw_range (a u : Q) :
  (0 <= u)%Q -> (u < 1)%Q ->
  ((0 <= a)%Q ->
   (0 <= 0 + (a - 0) * u)%Q /\ (0 + (a - 0) * u <= a)%Q) /\
  ((a == 0)%Q -> (0 + (a - 0) * u == 0)%Q).
Proof.
  intros Hu0 Hu1. split.
  - intro Ha.
    setoid_replace (0 + (a - 0) * u)%Q with (u * a)%Q by ring. split.
    + now apply Qmult_le_0_compat.
    + rewrite <- (Qmult_1_l a) at 2.
      apply Qmult_le_compat_r; [now apply Qlt_le_weak | exact Ha].
  - intros ->. ring.
Qed.

Lemma map_eq_Forall2 {A B C : Type} (f : A -> C) (g : B -> C)
    (xs : list A) :
  forall ys, map f xs = map g ys -> Forall2 (fun x y => f x = g y) xs ys.
Proof.
  induction xs as [|x xs IH]; intros [|y ys] H; try discriminate.
  - constructor.
  - cbn in H. injection H as Hxy Hrest. constructor; auto.
Qed.

Lemma Forall2_and_right {A B : Type} (R : A -> B -> Prop) (P : B -> Prop)
    (xs : list A) (ys : list B) :
  Forall2 R xs ys -> Forall P ys -> Forall2 (fun x y => R x y /\ P y) xs ys.
Proof.
  induction 1 as [|x y xs ys Hxy _ IH]; intro HP.
  - constructor.
  - inversion HP; subst. constructor; auto.
Qed.

Lemma amounts_on_partition (cfg : NoiseConfig) (base_amount : Q)
    (ls : list NoiseLine) :
  Forall (drawn_line cfg base_amount) ls ->
  length ls =
    (length (amounts_on "left" ls) + length (amounts_on "right" ls))%nat.
Proof.
  unfold amounts_on. induction 1 as [|l ls [[Hl|Hl] _] _ IH]; cbn;
    [reflexivity| |]; rewrite Hl; cbn; rewrite IH; lia.
Qed.

(** ** Reading back the lines of an entry *)

Lemma filter_tid_all (tid : Z) (rows : list EntryRecord) :
  Forall (fun r => er_TID r = tid) rows ->
  filter (fun r => Z.eqb (er_TID r) tid) rows = rows.
Proof.
  induction 1 as [|r rows Hr _ IH]; cbn; [reflexivity|].
  now rewrite Hr, Z.eqb_refl, IH.
Qed.

Lemma filter_tid_none (tid : Z) (rows : list EntryRecord) :
  Forall (fun r => er_TID r <> tid) rows ->
  filter (fun r => Z.eqb (er_TID r) tid) rows = [].
Proof.
  induction 1 as [|r rows Hr _ IH]; cbn; [reflexivity|].
  apply Z.eqb_neq in Hr. now rewrite Hr.
Qed.

Lemma noise_rows_tid (id : PyVal) (tid : Z) (rows : list EntryRecord) :
  forall lines,
    map row_payload rows = map (line_payload id tid) lines ->
    Forall (fun r => er_TID r = tid) rows.
Proof.
  induction rows as [|r rows IH]; intros [|l lines] H; try discriminate.
  - constructor.
  - cbn in H. injection H as Ht _ _ _ Hrest. constructor; eauto.
Qed.

Lemma noise_plan_same_draws (cfg : NoiseConfig)
    (randomString : nat -> (nat -> Q) -> nat -> string * nat)
    (base_amount : Q) (w w2 : World) :
  random w2 = random w -> np_random w2 = np_random w ->
  noise_plan cfg randomString base_amount w2 =
    noise_plan cfg randomString base_amount w.
Proof. intros H1 H2. unfold noise_plan. now rewrite H1, H2. Qed.

(** ** Every call of [noise] *)

(** Whatever the configuration: for a proportion in [0, 1] the call returns
    and has written its plan; for a proportion outside it has written
    nothing, and has either stopped at the side draw or made no pass. *)
Lemma noise_cases (cfg : NoiseConfig)
    (randomString : nat -> (nat -> Q) -> nat -> string * nat)
    (base_amount : Q) (id : PyVal) (tid : Z) (w : World) :
  unit_tape (tape (np_random w)) ->
  writable w tid ->
  let lines := noise_plan cfg randomString base_amount w in
  exists r w' rows,
    noise cfg randomString base_amount id tid w = (r, w') /\
    JournalEntries (conn w') = JournalEntries (conn w) /\
    EntryRecords (conn w') = EntryRecords (conn w) ++ rows /\
    ((0 <= proportion cfg <= 1)%Q ->
     exists d,
       r = Ok d /\
       map row_payload rows = map (line_payload id tid) lines /\
       left d = 0%Q :: amounts_on "left" lines /\
       right d = 0%Q :: amounts_on "right" lines) /\
    ((proportion cfg < 0)%Q \/ (1 < proportion cfg)%Q ->
     rows = [] /\
     (forall d, r = Ok d -> d = mkNoiseDict [0%Q] [0%Q]) /\
     (forall e, r = Raise e ->
                e = ValueError "probabilities are not non-negative")).
Proof.
  intros Hnp Hw lines.
  destruct (Qlt_le_dec (proportion cfg) 0) as [Hneg|Hp0];
    [|destruct (Qlt_le_dec 1 (proportion cfg)) as [Hbig|Hp1]].
  3:{ destruct (noise_run cfg randomString base_amount id tid w
                  (conj Hp0 Hp1) Hnp Hw)
        as (d & w' & rows & Hrun & Hje & Her & Hrows & Hl & Hr).
      exists (Ok d), w', rows. split; [exact Hrun|]. split; [exact Hje|].
      split; [exact Her|]. split; [intros _; now exists d|].
      intros [H|H]; exfalso.
      - exact (Qlt_not_le _ _ H Hp0).
      - exact (Qlt_not_le _ _ H Hp1). }
  all: assert (Hbad : (proportion cfg < 0)%Q \/ (1 < proportion cfg)%Q)
         by auto;
    pose proof (noise_rejected_writes_nothing cfg randomString base_amount
                  id tid w Hbad) as Hc;
    pose proof (noise_rejected_returns_initial cfg randomString base_amount
                  id tid w Hbad) as Hd;
    pose proof (noise_outcome cfg randomString base_amount id tid w Hnp Hw)
      as Hout;
    destruct (noise cfg randomString base_amount id tid w) as [r w'];
    cbn [snd] in Hc;
    exists r, w', []; rewrite Hc, app_nil_r;
    (split; [reflexivity|]); (split; [reflexivity|]);
    (split; [reflexivity|]);
    (split; [intros [H0 H1]; exfalso|
             intros _; split; [reflexivity|];
             split; [intros d ->; now apply (Hd d w')|];
             intros e ->;
             destruct Hout as [(d & w3 & H)|(w3 & H & _)];
             [discriminate | now injection H as -> _]]).
  - exact (Qlt_not_le _ _ Hneg H0).
  - exact (Qlt_not_le _ _ Hbig H1).
Qed.

(** ** Every call of [workflow] *)

Lemma workflow_cases (cfg : NoiseConfig)
    (randomString : nat -> (nat -> Q) -> nat -> string * nat)
    (self_name : string) (postfix : PyVal) (base_amount : Q) (id : PyVal)
    (true_lines : list (string * string * PyNum)) (w : World) :
  unit_tape (tape (np_random w)) ->
  let tid := next_rowid (entry_ids w) in
  let lines := noise_plan cfg randomString base_amount w in
  int64 tid = true ->
  forallb line_bindable true_lines = true ->
  exists r w' true_rows noise_rows,
    workflow cfg randomString self_name postfix base_amount id true_lines w =
      (r, w') /\
    JournalEntries (conn w') =
      JournalEntries (conn w)
        ++ [mkJournalEntry tid (env_now w) (self_name ++ str postfix)
              self_name] /\
    EntryRecords (conn w') =
      EntryRecords (conn w) ++ true_rows ++ noise_rows /\
    map row_payload true_rows = map (true_payload tid) true_lines /\
    ((0 <= proportion cfg <= 1)%Q ->
     exists d,
       r = Ok (tid, d) /\
       map row_payload noise_rows = map (line_payload id tid) lines /\
       left d = 0%Q :: amounts_on "left" lines /\
       right d = 0%Q :: amounts_on "right" lines) /\
    ((proportion cfg < 0)%Q \/ (1 < proportion cfg)%Q ->
     noise_rows = [] /\
     (forall v, r = Ok v -> v = (tid, mkNoiseDict [0%Q] [0%Q])) /\
     (forall e, r = Raise e ->
                e = ValueError "probabilities are not non-negative")).
Proof.
  intros Hnp tid lines Hid Hb.
  destruct (workflow_run cfg randomString self_name postfix base_amount id
              true_lines w Hid Hb)
    as (w2 & rows & Hgen & Hje & Her & Hrows & Hhas & _ & _ & Hr & Hn).
  fold tid in Hgen, Hje, Hrows, Hhas.
  destruct (noise_cases cfg randomString base_amount id tid w2)
    as (r & w' & nrows & Hrun & Hje' & Her' & Hok & Hbad).
  { now rewrite Hn. }
  { split; [exact Hid | now right]. }
  rewrite (noise_plan_same_draws _ _ _ _ _ Hr Hn) in Hok. fold lines in Hok.
  rewrite Hrun in Hgen.
  exists (match r with Ok d => Ok (tid, d) | Raise e => Raise e end), w',
    rows, nrows.
  split; [destruct r; exact Hgen|].
  split; [now rewrite Hje', Hje|].
  split; [now rewrite Her', Her, app_assoc|].
  split; [exact Hrows|]. split.
  - intro Hp. destruct (Hok Hp) as (d & -> & H). now exists d.
  - intro Hinv. destruct (Hbad Hinv) as (Hnone & Hd & He).
    split; [exact Hnone|]. split.
    + intros v Hv. destruct r as [d|e]; [|discriminate].
      injection Hv as <-. now rewrite (Hd d eq_refl).
    + intros e Hv. destruct r as [d|e']; [discriminate|].
      injection Hv as <-. now apply He.
Qed.

(** ** The checks of [generate] *)

Lemma config_in_range_iff (cfg : NoiseConfig) :
  config_in_range cfg = true <-> valid_config cfg.
Proof.
  unfold config_in_range, valid_config.
  rewrite !andb_true_iff, !Qle_bool_iff. tauto.
Qed.

(** ** The scenario *)

Lemma sample_tape_unit : unit_tape sample_tape.
Proof.
  intro n. unfold sample_tape, Qle, Qlt. cbn [Qnum Qden].
  pose proof (Nat.mod_upper_bound (5 * n + 3) 11 ltac:(discriminate)). lia.
Qed.

Lemma sample_world_unit_draws : unit_draws sample_world.
Proof. split; exact sample_tape_unit. Qed.

(** * The claims *)

(** ** The store: [addRecord] and [new] *)

(** C7, as the claim states it, fails: on the connection [__init__] opens
    on an empty database no entry has the id 42, and yet [addRecord] under
    the entry id 42 returns the line id 1 and the line is stored. *)
Lemma addRecord_unknown_entry_is_stored :
  has_entry (conn sample_world) 42 = false /\
  opened_by_init (conn sample_world) /\
  fst (addRecord "Cash" "Asset" (NumInt 100) 42 sample_world) = Ok 1 /\
  EntryRecords
    (conn (snd (addRecord "Cash" "Asset" (NumInt 100) 42 sample_world))) =
    [mkEntryRecord 1 42 "Cash" "Asset" 100%Q].
Proof. repeat split. Qed.

(** C7, amended.  [addRecord] does not look at the entries.  On a
    connection as [__init__] opens it (no foreign-key enforcement) a call
    whose entry id fits 64 bits and whose amount is a float or an int
    within 64 bits returns the fresh row id and appends the line with the
    arguments as given, whether or not [tid] is the id of a stored entry;
    the entries are left as they are.  A call with an int outside 64 bits,
    as entry id or as amount, raises [OverflowError] and leaves the state
    as it is. *)
Theorem addRecord_stores_under_any_entry_id (name fa_name : string)
    (value : PyNum) (tid : Z) (w : World) :
  opened_by_init (conn w) ->
  (int64 tid = true -> bindable value = true ->
   let lid := next_rowid (record_ids w) in
   exists w',
     addRecord name fa_name value tid w = (Ok lid, w') /\
     EntryRecords (conn w') =
       EntryRecords (conn w)
         ++ [mkEntryRecord lid tid name fa_name (PyNum_value value)] /\
     JournalEntries (conn w') = JournalEntries (conn w)) /\
  (int64 tid && bindable value = false ->
   addRecord name fa_name value tid w =
     (Raise (OverflowError
               "Python int too large to convert to SQLite INTEGER"), w)).
Proof.
  intro Hinit. split.
  - intros Hid Hv lid. eexists. split; [|split].
    + apply addRecord_run; [apply writable_opened|]; assumption.
    + reflexivity.
    + reflexivity.
  - apply addRecord_overflow.
Qed.

(** C7 on the empty database: the line under the unknown entry id 42, and
    the entry id 2^63. *)
Lemma addRecord_stores_under_any_entry_id_witness :
  opened_by_init (conn sample_world) /\
  has_entry (conn sample_world) 42 = false /\
  (exists w',
     addRecord "Cash" "Asset" (NumInt 100) 42 sample_world = (Ok 1, w') /\
     EntryRecords (conn w') =
       EntryRecords (conn sample_world)
         ++ [mkEntryRecord 1 42 "Cash" "Asset" 100%Q] /\
     JournalEntries (conn w') = JournalEntries (conn sample_world)) /\
  addRecord "Cash" "Asset" (NumInt 100) (2 ^ 63) sample_world =
    (Raise (OverflowError
              "Python int too large to convert to SQLite INTEGER"),
     sample_world).
Proof.
  split; [reflexivity|]. split; [reflexivity|]. split.
  - exact (proj1 (addRecord_stores_under_any_entry_id "Cash" "Asset"
                    (NumInt 100) 42 sample_world eq_refl)
             eq_refl eq_refl).
  - exact (proj2 (addRecord_stores_under_any_entry_id "Cash" "Asset"
                    (NumInt 100) (2 ^ 63) sample_world eq_refl)
             eq_refl).
Defined.

(** C8.  Identifiers are never reused.  [new] returns an id that no stored
    entry has and stores the entry under it; [addRecord], when the insert
    goes through (the entry id and the amount can be bound, and the entry
    is there if foreign keys are enforced), does the same for lines.  In
    every run of the methods the entry ids returned are pairwise distinct,
    the line ids returned are pairwise distinct, none of them was in the
    tables before the run, all of them are in the tables after it, and
    tables whose row ids were pairwise distinct before the run have
    pairwise distinct row ids after
    it (this covers the lines [noise] writes). *)
Theorem identifiers_never_reused (cfg : NoiseConfig)
    (randomString : nat -> (nat -> Q) -> nat -> string * nat)
    (self_name : string) :
  (forall postfix w,
     let tid := next_rowid (entry_ids w) in
     exists w',
       new self_name postfix w = (Ok tid, w') /\
       ~ In tid (entry_ids w) /\
       entry_ids w' = entry_ids w ++ [tid]) /\
  (forall name fa_name value tid w,
     writable w tid ->
     bindable value = true ->
     let lid := next_rowid (record_ids w) in
     exists w',
       addRecord name fa_name value tid w = (Ok lid, w') /\
       ~ In lid (record_ids w) /\
       record_ids w' = record_ids w ++ [lid]) /\
  (forall calls w,
     let out := run cfg randomString self_name calls w in
     NoDup (returned_entry_ids (fst out)) /\
     NoDup (returned_line_ids (fst out)) /\
     Forall (fun i => ~ In i (entry_ids w) /\ In i (entry_ids (snd out)))
            (returned_entry_ids (fst out)) /\
     Forall (fun i => ~ In i (record_ids w) /\ In i (record_ids (snd out)))
            (returned_line_ids (fst out)) /\
     (NoDup (entry_ids w) -> NoDup (entry_ids (snd out))) /\
     (NoDup (record_ids w) -> NoDup (record_ids (snd out)))).
Proof.
  split; [|split].
  - intros postfix w tid. eexists. split; [apply new_run|].
    split; [apply above_all_not_in, next_rowid_above|].
    unfold entry_ids. cbn. now rewrite map_app.
  - intros name fa_name value tid w Hw Hv lid. eexists.
    split; [apply addRecord_run; assumption|].
    split; [apply above_all_not_in, next_rowid_above|].
    unfold record_ids. cbn. now rewrite map_app.
  - intros calls w out.
    destruct (run_ids cfg randomString self_name calls w)
      as [[Se Fe] [Sl Fl]].
    pose proof (run_evolves cfg randomString self_name calls w) as Hev.
    fold out in Se, Fe, Sl, Fl, Hev.
    split; [now apply StronglySorted_lt_NoDup|].
    split; [now apply StronglySorted_lt_NoDup|].
    split; [|split; [|split]].
    + eapply Forall_impl; [|exact Fe]. cbv beta. intros i [Ha Hi].
      split; [now apply above_all_not_in | exact Hi].
    + eapply Forall_impl; [|exact Fl]. cbv beta. intros i [Ha Hi].
      split; [now apply above_all_not_in | exact Hi].
    + exact (ev_entry_ids _ _ Hev).
    + exact (ev_record_ids _ _ Hev).
Qed.

(** C8 in the scenario: a line under an unknown entry id gets the fresh id
    1, and after a run of five calls the line ids are pairwise distinct. *)
Lemma identifiers_never_reused_witness :
  writable sample_world 42 /\
  (exists w',
     addRecord "Cash" "Asset" (NumInt 100) 42 sample_world = (Ok 1, w') /\
     ~ In 1 (record_ids sample_world) /\
     record_ids w' = record_ids sample_world ++ [1]) /\
  NoDup (record_ids sample_world) /\
  NoDup (record_ids
           (snd (run sample_config sample_randomString "Sales"
                   [CallNew (PyInt 1);
                    CallAddRecord "Cash" "Asset" (NumInt 100) 1;
                    CallNoise 100%Q (PyInt 7) 1;
                    CallNew (PyInt 2);
                    CallAddRecord "Cash" "Asset" (NumInt 100) 2]
                   sample_world))).
Proof.
  pose (T := identifiers_never_reused sample_config sample_randomString
               "Sales").
  assert (Hw : writable sample_world 42)
    by (split; [reflexivity | left; reflexivity]).
  assert (Hnd : NoDup (record_ids sample_world)) by constructor.
  split; [exact Hw|].
  split; [exact (proj1 (proj2 T) "Cash"%string "Asset"%string (NumInt 100)
                  42 sample_world Hw eq_refl)|].
  split; [exact Hnd|].
  exact (proj2 (proj2 (proj2 (proj2 (proj2
           (proj2 (proj2 T) _ sample_world))))) Hnd).
Defined.

(** ** The noise step *)

(** C2.  With frequency 0 and draws in [0, 1) a call of [noise] takes one
    draw, returns the two initial lists and leaves the store as it is; and
    however many calls of the driver follow one another, the store gains
    true lines only.  When the entry ids fit 64 bits and every amount can
    be bound, each call of [workflow] stores its true lines and nothing
    else and returns the two initial lists.  In any state and for any
    lines, the rows that a sequence of calls of [workflow], or of
    [generate], adds are the true lines of the calls in order, up to the
    point where a call stops, and a sequence that returns has stored them
    all and returned the two initial lists each time. *)
Theorem noise_never_taken_at_frequency_zero (cfg : NoiseConfig)
    (randomString : nat -> (nat -> Q) -> nat -> string * nat)
    (self_name : string) (w : World) :
  (freq cfg == 0)%Q ->
  unit_tape (tape (random w)) ->
  (forall base_amount id tid,
     noise cfg randomString base_amount id tid w =
       (Ok (mkNoiseDict [0%Q] [0%Q]), set_random (advance 1 (random w)) w)) /\
  (forall calls,
     entry_ids_fit w (length calls) ->
     forallb line_bindable (flat_map ga_true_lines calls) = true ->
     exists out w' rows,
       workflow_all cfg randomString self_name calls w = (Ok out, w') /\
       EntryRecords (conn w') = EntryRecords (conn w) ++ rows /\
       map row_line rows = map line_value (flat_map ga_true_lines calls) /\
       Forall (fun r => snd r = mkNoiseDict [0%Q] [0%Q]) out /\
       length out = length calls) /\
  (forall calls,
     exists r w' rows rest,
       workflow_all cfg randomString self_name calls w = (r, w') /\
       EntryRecords (conn w') = EntryRecords (conn w) ++ rows /\
       map line_value (flat_map ga_true_lines calls) =
         map row_line rows ++ rest /\
       (forall out,
          r = Ok out ->
          rest = [] /\
          Forall (fun v => snd v = mkNoiseDict [0%Q] [0%Q]) out /\
          length out = length calls)) /\
  (forall calls,
     exists r w' rows rest,
       generate_all cfg randomString self_name calls w = (r, w') /\
       EntryRecords (conn w') = EntryRecords (conn w) ++ rows /\
       map line_value (flat_map ga_true_lines calls) =
         map row_line rows ++ rest /\
       (forall out,
          r = Ok out ->
          rest = [] /\
          Forall (fun v => snd v = mkNoiseDict [0%Q] [0%Q]) out /\
          length out = length calls)).
Proof.
  intros Hf Hpy. split; [|split; [|split]].
  - intros base_amount id tid. apply noise_skipped. rewrite Hf. apply Hpy.
  - intros calls Hfit Hb. now apply workflow_all_quiet.
  - intro calls. apply for_calls_quiet; [|exact Hpy].
    intros a w0. now apply workflow_quiet.
  - intro calls. apply for_calls_quiet; [|exact Hpy].
    intros a w0. now apply generate_quiet.
Qed.

(** C2 in the scenario with frequency 0: a call of [noise], and two calls
    of the driver one after the other. *)
Lemma noise_never_taken_at_frequency_zero_witness :
  let calls :=
    [mkGenerateArgs (PyInt 1) 100%Q (PyInt 7) sample_true_lines;
     mkGenerateArgs (PyInt 2) 100%Q (PyInt 8) sample_true_lines] in
  (freq quiet_config == 0)%Q /\
  unit_tape (tape (random sample_world)) /\
  noise quiet_config sample_randomString 100%Q (PyInt 7) 1 sample_world =
    (Ok (mkNoiseDict [0%Q] [0%Q]),
     set_random (advance 1 (random sample_world)) sample_world) /\
  entry_ids_fit sample_world (length calls) /\
  forallb line_bindable (flat_map ga_true_lines calls) = true /\
  exists out w' rows,
    workflow_all quiet_config sample_randomString "Sales" calls sample_world =
      (Ok out, w') /\
    EntryRecords (conn w') = EntryRecords (conn sample_world) ++ rows /\
    map row_line rows = map line_value (flat_map ga_true_lines calls) /\
    Forall (fun r => snd r = mkNoiseDict [0%Q] [0%Q]) out /\
    length out = length calls.
Proof.
  intro calls.
  assert (Hf : (freq quiet_config == 0)%Q) by reflexivity.
  assert (Hfit : entry_ids_fit sample_world (length calls))
    by (split; discriminate).
  split; [exact Hf|]. split; [exact sample_tape_unit|]. split; [|split].
  - exact (proj1 (noise_never_taken_at_frequency_zero quiet_config
                    sample_randomString "Sales" sample_world Hf
                    sample_tape_unit) 100%Q (PyInt 7) 1).
  - exact Hfit.
  - split; [reflexivity|].
    exact (proj1 (proj2 (noise_never_taken_at_frequency_zero quiet_config
                           sample_randomString "Sales" sample_world Hf
                           sample_tape_unit)) calls Hfit eq_refl).
Defined.

(** C4, as the claim states it, fails at number amplitude 0, which is in
    the range the specification calls valid: the call is triggered, the
    number of passes is 0, and 0 is not strictly below the amplitude. *)
Lemma noise_count_not_below_zero_amplitude :
  (0 <= num_amplitude zero_amplitude_config)%Q /\
  (tape (random sample_world) (pos (random sample_world))
   < freq zero_amplitude_config)%Q /\
  noise_count zero_amplitude_config
    (tape (random sample_world) (pos (random sample_world) + 1)%nat) = 0 /\
  ~ (inject_Z
       (noise_count zero_amplitude_config
          (tape (random sample_world) (pos (random sample_world) + 1)%nat))
     < num_amplitude zero_amplitude_config)%Q.
Proof.
  split; [discriminate|]. split; [reflexivity|]. split; [reflexivity|].
  discriminate.
Qed.

(** C4, amended.  When noise is triggered, the number of passes through
    the loop is [int(random.uniform(0, num_amplitude))].  For a positive
    number amplitude it is not negative and strictly below the amplitude,
    [noise] writes at most that many lines and, for a proportion in
    [0, 1], exactly that many.  For a number amplitude of 0 or below it is
    not positive and no line is written.  With frequency 1 and number
    amplitude 1 every call is triggered and writes no line at all, so
    between 0 and 1 lines.  (That the draw is uniform is a property of the
    generator behind the tape and is not stated here.) *)
Theorem noise_line_count_below_num_amplitude (cfg : NoiseConfig)
    (randomString : nat -> (nat -> Q) -> nat -> string * nat)
    (base_amount : Q) (id : PyVal) (tid : Z) (w : World) :
  unit_draws w ->
  writable w tid ->
  let count :=
    noise_count cfg (tape (random w) (pos (random w) + 1)%nat) in
  exists r w' rows,
    noise cfg randomString base_amount id tid w = (r, w') /\
    EntryRecords (conn w') = EntryRecords (conn w) ++ rows /\
    ((0 < num_amplitude cfg)%Q ->
     (tape (random w) (pos (random w)) < freq cfg)%Q ->
     0 <= count /\
     (inject_Z count < num_amplitude cfg)%Q /\
     Z.of_nat (length rows) <= count /\
     ((0 <= proportion cfg <= 1)%Q -> Z.of_nat (length rows) = count)) /\
    ((num_amplitude cfg <= 0)%Q -> count <= 0 /\ rows = []) /\
    ((freq cfg == 1)%Q -> (num_amplitude cfg == 1)%Q ->
     count = 0 /\ rows = []).
Proof.
  intros [Hpy Hnp] Hw count.
  destruct (noise_rows cfg randomString base_amount id tid w Hnp Hw)
    as (r & w' & rows & Hrun & _ & Her & Hle & Hok).
  rewrite noise_plan_length in Hle, Hok.
  exists r, w', rows. split; [exact Hrun|]. split; [exact Her|].
  destruct (Hpy (pos (random w))) as [Hu0 Hu1].
  destruct (Hpy (pos (random w) + 1)%nat) as [Hv0 Hv1].
  fold count in Hle, Hok.
  assert (Hnone : count <= 0 -> rows = []).
  { intro Hc. destruct (Qlt_bool _ (freq cfg)) in Hle;
      destruct rows; try reflexivity; cbn in Hle; lia. }
  split; [|split].
  - intros Ha Htrig.
    destruct (noise_count_bounds cfg _ Hv0 Hv1 Ha) as [Hc0 Hc1].
    apply Qlt_bool_iff in Htrig. rewrite Htrig in Hle, Hok.
    fold count in Hc0, Hc1.
    split; [exact Hc0|]. split; [exact Hc1|]. split; [lia|].
    intro Hp. destruct (Hok Hp) as [_ Hlen]. lia.
  - intro Ha.
    assert (Hc : count <= 0) by (now apply noise_count_nonpos).
    split; [exact Hc | exact (Hnone Hc)].
  - intros Hf Ha.
    assert (Hc : count = 0) by (now apply noise_count_unit).
    split; [exact Hc | apply Hnone; lia].
Qed.

(** C4 in the scenario: the count draw 8/11 gives int(24/11) = 2 passes. *)
Lemma noise_line_count_below_num_amplitude_witness :
  unit_draws sample_world /\
  writable sample_world 1 /\
  exists r w' rows,
    noise sample_config sample_randomString 100%Q (PyInt 7) 1 sample_world =
      (r, w') /\
    EntryRecords (conn w') = EntryRecords (conn sample_world) ++ rows /\
    ((0 < num_amplitude sample_config)%Q ->
     (tape (random sample_world) (pos (random sample_world))
      < freq sample_config)%Q ->
     0 <= 2 /\
     (inject_Z 2 < num_amplitude sample_config)%Q /\
     Z.of_nat (length rows) <= 2 /\
     ((0 <= proportion sample_config <= 1)%Q ->
      Z.of_nat (length rows) = 2)) /\
    ((num_amplitude sample_config <= 0)%Q -> 2 <= 0 /\ rows = []) /\
    ((freq sample_config == 1)%Q -> (num_amplitude sample_config == 1)%Q ->
     2 = 0 /\ rows = []).
Proof.
  assert (Hw : writable sample_world 1)
    by (split; [reflexivity | left; reflexivity]).
  split; [exact sample_world_unit_draws|]. split; [exact Hw|].
  exact (noise_line_count_below_num_amplitude sample_config
           sample_randomString 100%Q (PyInt 7) 1 sample_world
           sample_world_unit_draws Hw).
Defined.

(** C3, as the claim states it, fails: with proportion 1, the base amount
    100 and the noise amplitude - 1/10, which [noise] takes as it is, the
    two lines of the call are "left" lines, their amounts are negative and
    the values stored for them, the negated amounts, are positive. *)
Lemma noise_left_values_can_be_positive :
  let out :=
    noise negative_amplitude_config sample_randomString 100%Q (PyInt 7) 1
          sample_world in
  (proportion negative_amplitude_config == 1)%Q /\
  (0 <= 100)%Q /\
  fst out = Ok (mkNoiseDict [0%Q; -1000 # 110; -100 # 110] [0%Q]) /\
  map er_Value (EntryRecords (conn (snd out))) = [1000 # 110; 100 # 110] /\
  Forall (fun r => (0 < er_Value r)%Q) (EntryRecords (conn (snd out))).
Proof.
  cbv zeta. split; [reflexivity|]. split; [discriminate|].
  split; [reflexivity|]. split; [reflexivity|].
  repeat constructor.
Qed.

(** C3, amended.  With proportion 1 every line of a call of [noise] is a
    "left" line: the call returns, the list under "right" stays [0], the
    list under "left" holds the amounts and the values stored are the
    negated amounts.  With proportion 0 every line is a "right" line, the
    list under "left" stays [0] and the values stored are the amounts.
    The negated amounts are not positive, and the amounts not negative,
    when the base amount and the noise amplitude are both not negative. *)
Theorem noise_side_at_extreme_proportion (cfg : NoiseConfig)
    (randomString : nat -> (nat -> Q) -> nat -> string * nat)
    (base_amount : Q) (id : PyVal) (tid : Z) (w : World) :
  unit_draws w ->
  writable w tid ->
  let lines := noise_plan cfg randomString base_amount w in
  ((proportion cfg == 1)%Q ->
   Forall (fun l => nl_side l = "left"%string) lines /\
   exists d w' rows,
     noise cfg randomString base_amount id tid w = (Ok d, w') /\
     EntryRecords (conn w') = EntryRecords (conn w) ++ rows /\
     left d = 0%Q :: map nl_amount lines /\
     right d = [0%Q] /\
     map er_Value rows = map (fun l => (- nl_amount l)%Q) lines /\
     ((0 <= base_amount)%Q -> (0 <= noise_amplitude cfg)%Q ->
      Forall (fun r => (er_Value r <= 0)%Q) rows)) /\
  ((proportion cfg == 0)%Q ->
   Forall (fun l => nl_side l = "right"%string) lines /\
   exists d w' rows,
     noise cfg randomString base_amount id tid w = (Ok d, w') /\
     EntryRecords (conn w') = EntryRecords (conn w) ++ rows /\
     left d = [0%Q] /\
     right d = 0%Q :: map nl_amount lines /\
     map er_Value rows = map nl_amount lines /\
     ((0 <= base_amount)%Q -> (0 <= noise_amplitude cfg)%Q ->
      Forall (fun r => (0 <= er_Value r)%Q) rows)).
Proof.
  intros [Hpy Hnp] Hw lines.
  assert (Hdrawn : Forall (drawn_line cfg base_amount) lines).
  { apply noise_plan_cases. intros. now apply noise_lines_drawn. }
  split; intro Hp.
  - assert (Hside : Forall (fun l => nl_side l = "left"%string) lines).
    { apply noise_plan_cases. intros. now apply noise_lines_all_left. }
    split; [exact Hside|].
    destruct (noise_run cfg randomString base_amount id tid w)
      as (d & w' & rows & Hrun & _ & Her & Hrows & Hl & Hr);
      [rewrite Hp; split; discriminate | exact Hnp | exact Hw |].
    fold lines in Hrows, Hl, Hr.
    rewrite (amounts_on_all _ _ Hside) in Hl.
    rewrite (amounts_on_none "right" "left" _ eq_refl Hside) in Hr.
    assert (Hval : map er_Value rows
                   = map (fun l => (- nl_amount l)%Q) lines).
    { transitivity (map snd (map row_payload rows));
        [now rewrite map_map|].
      rewrite Hrows, map_map. apply map_ext_in. intros l Hin.
      rewrite Forall_forall in Hside. cbn [line_payload snd].
      now rewrite (Hside l Hin). }
    exists d, w', rows. repeat split; try assumption.
    intros Hb Ha.
    apply (proj1 (Forall_map er_Value (fun v => (v <= 0)%Q) rows)).
    rewrite Hval. apply Forall_map.
    eapply Forall_impl; [|exact Hdrawn]. cbv beta. intros l Hd.
    apply (Qopp_le_compat 0). now apply (drawn_amount_nonneg cfg base_amount).
  - assert (Hside : Forall (fun l => nl_side l = "right"%string) lines).
    { apply noise_plan_cases. intros. now apply noise_lines_all_right. }
    split; [exact Hside|].
    destruct (noise_run cfg randomString base_amount id tid w)
      as (d & w' & rows & Hrun & _ & Her & Hrows & Hl & Hr);
      [rewrite Hp; split; discriminate | exact Hnp | exact Hw |].
    fold lines in Hrows, Hl, Hr.
    rewrite (amounts_on_all _ _ Hside) in Hr.
    rewrite (amounts_on_none "left" "right" _ eq_refl Hside) in Hl.
    assert (Hval : map er_Value rows = map nl_amount lines).
    { transitivity (map snd (map row_payload rows));
        [now rewrite map_map|].
      rewrite Hrows, map_map. apply map_ext_in. intros l Hin.
      rewrite Forall_forall in Hside. cbn [line_payload snd].
      now rewrite (Hside l Hin). }
    exists d, w', rows. repeat split; try assumption.
    intros Hb Ha.
    apply (proj1 (Forall_map er_Value (fun v => (0 <= v)%Q) rows)).
    rewrite Hval. apply Forall_map.
    eapply Forall_impl; [|exact Hdrawn]. cbv beta. intros l Hd.
    now apply (drawn_amount_nonneg cfg base_amount).
Qed.

(** C3 in the scenario with proportion 1 and with proportion 0. *)
Lemma noise_side_at_extreme_proportion_witness :
  unit_draws sample_world /\
  writable sample_world 1 /\
  (proportion left_config == 1)%Q /\
  (exists d w' rows,
     noise left_config sample_randomString 100%Q (PyInt 7) 1 sample_world =
       (Ok d, w') /\
     EntryRecords (conn w') = EntryRecords (conn sample_world) ++ rows /\
     left d = [0; 1000 # 110; 100 # 110]%Q /\
     right d = [0%Q] /\
     map er_Value rows = [- (1000 # 110); - (100 # 110)]%Q /\
     ((0 <= 100)%Q -> (0 <= noise_amplitude left_config)%Q ->
      Forall (fun r => (er_Value r <= 0)%Q) rows)) /\
  (proportion right_config == 0)%Q /\
  (exists d w' rows,
     noise right_config sample_randomString 100%Q (PyInt 7) 1 sample_world =
       (Ok d, w') /\
     EntryRecords (conn w') = EntryRecords (conn sample_world) ++ rows /\
     left d = [0%Q] /\
     right d = [0; 1000 # 110; 100 # 110]%Q /\
     map er_Value rows = [1000 # 110; 100 # 110]%Q /\
     ((0 <= 100)%Q -> (0 <= noise_amplitude right_config)%Q ->
      Forall (fun r => (0 <= er_Value r)%Q) rows)).
Proof.
  assert (Hw : writable sample_world 1)
    by (split; [reflexivity | left; reflexivity]).
  assert (Hl : (proportion left_config == 1)%Q) by reflexivity.
  assert (Hr : (proportion right_config == 0)%Q) by reflexivity.
  split; [exact sample_world_unit_draws|]. split; [exact Hw|].
  split; [exact Hl|]. split; [|split; [exact Hr|]].
  - exact (proj2 (proj1 (noise_side_at_extreme_proportion left_config
                           sample_randomString 100%Q (PyInt 7) 1 sample_world
                           sample_world_unit_draws Hw) Hl)).
  - exact (proj2 (proj2 (noise_side_at_extreme_proportion right_config
                           sample_randomString 100%Q (PyInt 7) 1 sample_world
                           sample_world_unit_draws Hw) Hr)).
Defined.

(** C5, as the claim states it, fails.  In the scenario the two lines are
    stored under the account names "eqcoal_7" and "jvhseq_7", and their
    group labels are "eqcoal" and "jvhseq": the group label is the
    generated name, the account name is not.  And with the noise amplitude
    0, which the specification calls valid, two lines are stored, with the
    draw 0, which is in no interval [0, 0). *)
Lemma noise_line_label_is_not_its_account_name :
  let out :=
    noise sample_config sample_randomString 100%Q (PyInt 7) 1 sample_world in
  let flat :=
    noise zero_noise_config sample_randomString 100%Q (PyInt 7) 1
          sample_world in
  map (fun r => (er_Name r, er_FA_Name r)) (EntryRecords (conn (snd out))) =
    [("eqcoal_7", "eqcoal"); ("jvhseq_7", "jvhseq")]%string /\
  Forall (fun r => er_FA_Name r <> er_Name r)
         (EntryRecords (conn (snd out))) /\
  valid_config zero_noise_config /\
  map er_Value (EntryRecords (conn (snd flat))) = [0 # 11; 0 # 11] /\
  (forall x : Q, ~ ((0 <= x)%Q /\ (x < noise_amplitude zero_noise_config)%Q)).
Proof.
  cbv zeta. split; [reflexivity|].
  split; [repeat constructor; discriminate|].
  split; [repeat split; discriminate|].
  split; [reflexivity|].
  intros x [H0 H1]. exact (Qlt_not_le _ _ H1 H0).
Qed.

(** C5, amended.  Every line a call of [noise] stores comes from one pass
    through the loop: its amount is the base amount times the draw
    [random.uniform(0, noise_amplitude)], which for an amplitude that is
    not negative lies between 0 and the amplitude and is 0 when the
    amplitude is 0; the stored value is the negated amount for a "left"
    line and the amount for a "right" line; the group label [FA_Name] is
    the generated name, the account name [Name] under which the line is
    stored is that name followed by "_" and [str(id)], and the line is
    stored under [tid].  (With a proportion outside [0, 1] no line is
    stored.) *)
Theorem noise_line_record (cfg : NoiseConfig)
    (randomString : nat -> (nat -> Q) -> nat -> string * nat)
    (base_amount : Q) (id : PyVal) (tid : Z) (w : World) :
  unit_draws w ->
  writable w tid ->
  exists r w' rows,
    noise cfg randomString base_amount id tid w = (r, w') /\
    EntryRecords (conn w') = EntryRecords (conn w) ++ rows /\
    ((0 <= proportion cfg <= 1)%Q ->
     (exists d, r = Ok d) /\
     Forall2
       (fun r l =>
          er_TID r = tid /\
          er_FA_Name r = nl_name l /\
          er_Name r = (nl_name l ++ "_" ++ str id)%string /\
          ((nl_side l = "left"%string /\ er_Value r = (- nl_amount l)%Q) \/
           (nl_side l = "right"%string /\ er_Value r = nl_amount l)) /\
          exists u,
            (0 <= u)%Q /\ (u < 1)%Q /\
            nl_amount l =
              (base_amount * (0 + (noise_amplitude cfg - 0) * u))%Q /\
            ((0 <= noise_amplitude cfg)%Q ->
             (0 <= 0 + (noise_amplitude cfg - 0) * u)%Q /\
             (0 + (noise_amplitude cfg - 0) * u <= noise_amplitude cfg)%Q) /\
            ((noise_amplitude cfg == 0)%Q ->
             (0 + (noise_amplitude cfg - 0) * u == 0)%Q))
       rows (noise_plan cfg randomString base_amount w)) /\
    ((proportion cfg < 0)%Q \/ (1 < proportion cfg)%Q -> rows = []).
Proof.
  intros [Hpy Hnp] Hw.
  destruct (noise_cases cfg randomString base_amount id tid w Hnp Hw)
    as (r & w' & rows & Hrun & _ & Her & Hok & Hbad).
  exists r, w', rows. split; [exact Hrun|]. split; [exact Her|].
  split; [|intro H; exact (proj1 (Hbad H))].
  intro Hp. destruct (Hok Hp) as (d & -> & Hrows & _).
  split; [now exists d|].
  assert (Hdrawn : Forall (drawn_line cfg base_amount)
                          (noise_plan cfg randomString base_amount w)).
  { apply noise_plan_cases. intros. now apply noise_lines_drawn. }
  eapply Forall2_impl;
    [|exact (Forall2_and_right _ _ _ _ (map_eq_Forall2 _ _ _ _ Hrows)
               Hdrawn)].
  cbv beta. intros r l [Hpay [Hside (u & Hu0 & Hu1 & Hamt)]].
  unfold row_payload, line_payload in Hpay.
  injection Hpay as Ht Hn Hf Hv.
  split; [exact Ht|]. split; [exact Hf|]. split; [exact Hn|]. split.
  - destruct Hside as [Hs|Hs]; rewrite Hs in Hv; cbn in Hv; auto.
  - exists u. split; [exact Hu0|]. split; [exact Hu1|].
    split; [exact Hamt|].
    exact (uniform_draw_range (noise_amplitude cfg) u Hu0 Hu1).
Qed.

(** C5 in the scenario: a "left" line of amount 1000/110 named "eqcoal" and
    a "right" line of amount 100/110 named "jvhseq". *)
Lemma noise_line_record_witness :
  unit_draws sample_world /\
  writable sample_world 1 /\
  (0 <= proportion sample_config <= 1)%Q /\
  exists r w' rows,
    noise sample_config sample_randomString 100%Q (PyInt 7) 1 sample_world =
      (r, w') /\
    EntryRecords (conn w') = EntryRecords (conn sample_world) ++ rows /\
    (exists d, r = Ok d) /\
    Forall2
      (fun r l =>
         er_TID r = 1 /\
         er_FA_Name r = nl_name l /\
         er_Name r = (nl_name l ++ "_" ++ "7")%string /\
         ((nl_side l = "left"%string /\ er_Value r = (- nl_amount l)%Q) \/
          (nl_side l = "right"%string /\ er_Value r = nl_amount l)) /\
         exists u,
           (0 <= u)%Q /\ (u < 1)%Q /\
           nl_amount l = (100 * (0 + ((1 # 10) - 0) * u))%Q /\
           ((0 <= 1 # 10)%Q ->
            (0 <= 0 + ((1 # 10) - 0) * u)%Q /\
            (0 + ((1 # 10) - 0) * u <= 1 # 10)%Q) /\
           (((1 # 10) == 0)%Q -> (0 + ((1 # 10) - 0) * u == 0)%Q))
      rows
      [mkNoiseLine "left" "eqcoal" (1000 # 110);
       mkNoiseLine "right" "jvhseq" (100 # 110)].
Proof.
  assert (Hw : writable sample_world 1)
    by (split; [reflexivity | left; reflexivity]).
  assert (Hp : (0 <= proportion sample_config <= 1)%Q)
    by (split; discriminate).
  split; [exact sample_world_unit_draws|]. split; [exact Hw|].
  split; [exact Hp|].
  destruct (noise_line_record sample_config sample_randomString 100%Q
              (PyInt 7) 1 sample_world sample_world_unit_draws Hw)
    as (r & w' & rows & Hrun & Her & Hok & _).
  exists r, w', rows. split; [exact Hrun|]. split; [exact Her|].
  exact (Hok Hp).
Defined.

(** C6, as the claim states it, fails: in the scenario one line of amount
    1000/110 is stored on the left and one of amount 100/110 on the right,
    and the list returned under "left" is [0; 1000/110], the one under
    "right" is [0; 100/110]: each has the initial 0 besides the amounts of
    the lines. *)
Lemma noise_lists_are_not_the_written_amounts :
  let out :=
    noise sample_config sample_randomString 100%Q (PyInt 7) 1 sample_world in
  let lines :=
    noise_plan sample_config sample_randomString 100%Q sample_world in
  map row_line (EntryRecords (conn (snd out))) =
    [("eqcoal_7"%string, "eqcoal"%string, (- (1000 # 110))%Q);
     ("jvhseq_7"%string, "jvhseq"%string, (100 # 110)%Q)] /\
  amounts_on "left" lines = [1000 # 110]%Q /\
  amounts_on "right" lines = [100 # 110]%Q /\
  exists d,
    fst out = Ok d /\
    left d = [0; 1000 # 110]%Q /\
    right d = [0; 100 # 110]%Q /\
    left d <> amounts_on "left" lines /\
    right d <> amounts_on "right" lines.
Proof.
  cbv zeta. split; [reflexivity|]. split; [reflexivity|].
  split; [reflexivity|].
  exists (mkNoiseDict [0; 1000 # 110] [0; 100 # 110])%Q.
  repeat split; discriminate.
Qed.

(** C6, amended.  [noise] returns the per-side dictionary (the entry id is
    its argument, not part of what it returns).  The list under "left" is
    the initial 0 followed by exactly the amounts of the lines written on
    the left, in the order written, and the list under "right" is the
    initial 0 followed by exactly the amounts of the lines written on the
    right; the lines stored are those lines, negated on the left.  (With a
    proportion outside [0, 1] no line is written and a call that returns
    returns the two initial lists.) *)
Theorem noise_returns_amounts_by_side (cfg : NoiseConfig)
    (randomString : nat -> (nat -> Q) -> nat -> string * nat)
    (base_amount : Q) (id : PyVal) (tid : Z) (w : World) :
  unit_draws w ->
  writable w tid ->
  let lines := noise_plan cfg randomString base_amount w in
  exists r w' rows,
    noise cfg randomString base_amount id tid w = (r, w') /\
    EntryRecords (conn w') = EntryRecords (conn w) ++ rows /\
    ((0 <= proportion cfg <= 1)%Q ->
     exists d,
       r = Ok d /\
       map row_payload rows = map (line_payload id tid) lines /\
       left d = 0%Q :: amounts_on "left" lines /\
       right d = 0%Q :: amounts_on "right" lines) /\
    ((proportion cfg < 0)%Q \/ (1 < proportion cfg)%Q ->
     rows = [] /\ forall d, r = Ok d -> d = mkNoiseDict [0%Q] [0%Q]).
Proof.
  intros [_ Hnp] Hw lines.
  destruct (noise_cases cfg randomString base_amount id tid w Hnp Hw)
    as (r & w' & rows & Hrun & _ & Her & Hok & Hbad).
  exists r, w', rows. split; [exact Hrun|]. split; [exact Her|].
  split; [exact Hok|].
  intro Hinv. destruct (Hbad Hinv) as (Hnone & Hd & _). now split.
Qed.

(** C6 in the scenario. *)
Lemma noise_returns_amounts_by_side_witness :
  unit_draws sample_world /\
  writable sample_world 1 /\
  (0 <= proportion sample_config <= 1)%Q /\
  exists r w' rows,
    noise sample_config sample_randomString 100%Q (PyInt 7) 1 sample_world =
      (r, w') /\
    EntryRecords (conn w') = EntryRecords (conn sample_world) ++ rows /\
    exists d,
      r = Ok d /\
      map row_payload rows =
        [(1, "eqcoal_7"%string, "eqcoal"%string, (- (1000 # 110))%Q);
         (1, "jvhseq_7"%string, "jvhseq"%string, (100 # 110)%Q)] /\
      left d = [0; 1000 # 110]%Q /\
      right d = [0; 100 # 110]%Q.
Proof.
  assert (Hw : writable sample_world 1)
    by (split; [reflexivity | left; reflexivity]).
  assert (Hp : (0 <= proportion sample_config <= 1)%Q)
    by (split; discriminate).
  split; [exact sample_world_unit_draws|]. split; [exact Hw|].
  split; [exact Hp|].
  destruct (noise_returns_amounts_by_side sample_config sample_randomString
              100%Q (PyInt 7) 1 sample_world sample_world_unit_draws Hw)
    as (r & w' & rows & Hrun & Her & Hok & _).
  exists r, w', rows. split; [exact Hrun|]. split; [exact Her|].
  exact (Hok Hp).
Defined.

(** C10.  Whether or not noise is triggered, each of the two lists a call
    of [noise] returns begins with 0; its length is one plus the number of
    lines written on its side; every line written is on one of the two
    sides; and when no line is written both lists are [0].  (A call with a
    proportion outside [0, 1] writes no line, and returns the two lists
    [0] if it returns.) *)
Theorem noise_lists_begin_with_zero (cfg : NoiseConfig)
    (randomString : nat -> (nat -> Q) -> nat -> string * nat)
    (base_amount : Q) (id : PyVal) (tid : Z) (w : World) :
  unit_draws w ->
  writable w tid ->
  let lines := noise_plan cfg randomString base_amount w in
  exists r w' rows,
    noise cfg randomString base_amount id tid w = (r, w') /\
    EntryRecords (conn w') = EntryRecords (conn w) ++ rows /\
    ((0 <= proportion cfg <= 1)%Q ->
     (exists d, r = Ok d) /\
     map row_payload rows = map (line_payload id tid) lines /\
     length rows =
       (length (amounts_on "left" lines)
        + length (amounts_on "right" lines))%nat) /\
    (forall d,
       r = Ok d ->
       hd_error (left d) = Some 0%Q /\
       hd_error (right d) = Some 0%Q /\
       (rows = [] -> d = mkNoiseDict [0%Q] [0%Q]) /\
       ((0 <= proportion cfg <= 1)%Q ->
        length (left d) = Datatypes.S (length (amounts_on "left" lines)) /\
        length (right d) =
          Datatypes.S (length (amounts_on "right" lines)))).
Proof.
  intros [Hpy Hnp] Hw lines.
  destruct (noise_cases cfg randomString base_amount id tid w Hnp Hw)
    as (r & w' & rows & Hrun & _ & Her & Hok & Hbad).
  fold lines in Hok.
  assert (Hpart : length lines
                  = (length (amounts_on "left" lines)
                     + length (amounts_on "right" lines))%nat).
  { apply (amounts_on_partition cfg base_amount).
    apply noise_plan_cases. intros. now apply noise_lines_drawn. }
  exists r, w', rows. split; [exact Hrun|]. split; [exact Her|]. split.
  - intro Hp. destruct (Hok Hp) as (d & -> & Hrows & _).
    split; [now exists d|]. split; [exact Hrows|].
    now rewrite <- Hpart, <- (length_map row_payload), Hrows, length_map.
  - intros d ->.
    destruct (Qlt_le_dec (proportion cfg) 0) as [Hneg|Hp0];
      [|destruct (Qlt_le_dec 1 (proportion cfg)) as [Hbig|Hp1]].
    3:{ destruct (Hok (conj Hp0 Hp1)) as (d' & [= <-] & Hrows & Hl & Hr).
        rewrite Hl, Hr. cbn [hd_error length].
        split; [reflexivity|]. split; [reflexivity|]. split; [|now intros _].
        intros ->. destruct lines as [|l lines']; [|discriminate].
        destruct d as [dl dr]. cbn in Hl, Hr. now rewrite Hl, Hr. }
    all: assert (Hinv : (proportion cfg < 0)%Q \/ (1 < proportion cfg)%Q)
           by auto;
      destruct (Hbad Hinv) as (_ & Hd & _); rewrite (Hd d eq_refl);
      cbn [left right hd_error];
      (split; [reflexivity|]); (split; [reflexivity|]);
      (split; [reflexivity|]); intros [H0 H1]; exfalso.
    + exact (Qlt_not_le _ _ Hneg H0).
    + exact (Qlt_not_le _ _ Hbig H1).
Qed.

(** C10 in the scenario: one line on each side, two amounts in each list. *)
Lemma noise_lists_begin_with_zero_witness :
  unit_draws sample_world /\
  writable sample_world 1 /\
  exists r w' rows,
    noise sample_config sample_randomString 100%Q (PyInt 7) 1 sample_world =
      (r, w') /\
    EntryRecords (conn w') = EntryRecords (conn sample_world) ++ rows /\
    ((0 <= proportion sample_config <= 1)%Q ->
     (exists d, r = Ok d) /\
     map row_payload rows =
       [(1, "eqcoal_7"%string, "eqcoal"%string, (- (1000 # 110))%Q);
        (1, "jvhseq_7"%string, "jvhseq"%string, (100 # 110)%Q)] /\
     length rows = 2%nat) /\
    (forall d,
       r = Ok d ->
       hd_error (left d) = Some 0%Q /\
       hd_error (right d) = Some 0%Q /\
       (rows = [] -> d = mkNoiseDict [0%Q] [0%Q]) /\
       ((0 <= proportion sample_config <= 1)%Q ->
        length (left d) = 2%nat /\ length (right d) = 2%nat)).
Proof.
  assert (Hw : writable sample_world 1)
    by (split; [reflexivity | left; reflexivity]).
  split; [exact sample_world_unit_draws|]. split; [exact Hw|].
  exact (noise_lists_begin_with_zero sample_config sample_randomString
           100%Q (PyInt 7) 1 sample_world sample_world_unit_draws Hw).
Defined.

(** ** The workflow *)

(** C9, as the claim states it, fails.  On the empty database a line is
    stored under the entry id 1 before any entry is there.  The entry
    created next, with 2 true lines and 2 noise lines, gets the id 1, and
    reading back by that id yields 5 lines, the earlier line first. *)
Lemma entry_reads_back_an_earlier_line :
  let stray := addRecord "Fee" "Expense" (NumInt 5) 1 sample_world in
  let out :=
    workflow sample_config sample_randomString "Sales" (PyInt 1) 100%Q
             (PyInt 7) sample_true_lines (snd stray) in
  fst stray = Ok 1 /\
  fst out = Ok (1, mkNoiseDict [0%Q; (1000 # 110)%Q] [0%Q; (100 # 110)%Q]) /\
  length sample_true_lines = 2%nat /\
  map row_line (records_of 1 (conn (snd out))) =
    [("Fee", "Expense", 5%Q);
     ("ProductA", "Revenue", (- 100)%Q);
     ("Cash", "Asset", 100%Q);
     ("eqcoal_7", "eqcoal", (- (1000 # 110))%Q);
     ("jvhseq_7", "jvhseq", (100 # 110)%Q)]%string /\
  length (records_of 1 (conn (snd out))) = 5%nat.
Proof. cbv zeta. repeat split. Qed.

(** C9, amended.  An entry created by [workflow] with N true lines (entry
    id within 64 bits, amounts that can be bound) and M noise lines reads
    back as the lines stored under its id before it was created, then the
    N true lines, with name, group and value as given, then the M noise
    lines; so as exactly N + M lines when no line was stored under the id
    before, which is the case when every stored line references a stored
    entry (and then this is so afterwards as well).  For a proportion in
    [0, 1] the call returns the entry id, M is the number of lines of the
    plan and also the number of amounts the returned lists hold besides
    their two initial zeros; for a proportion outside, M is 0.  No method
    changes or removes a stored row: after [new], [addRecord], [noise],
    [workflow] and [generate] each table is the table before the call
    followed by the rows the call added. *)
Theorem entry_lines_read_back (cfg : NoiseConfig)
    (randomString : nat -> (nat -> Q) -> nat -> string * nat)
    (self_name : string) :
  (forall postfix base_amount id true_lines w,
     unit_draws w ->
     let tid := next_rowid (entry_ids w) in
     int64 tid = true ->
     forallb line_bindable true_lines = true ->
     exists r w' true_rows noise_rows,
       workflow cfg randomString self_name postfix base_amount id
                true_lines w = (r, w') /\
       has_entry (conn w') tid = true /\
       records_of tid (conn w') =
         records_of tid (conn w) ++ true_rows ++ noise_rows /\
       map row_line true_rows = map line_value true_lines /\
       length true_rows = length true_lines /\
       EntryRecords (conn w') =
         EntryRecords (conn w) ++ true_rows ++ noise_rows /\
       (records_of tid (conn w) = [] ->
        records_of tid (conn w') = true_rows ++ noise_rows /\
        length (records_of tid (conn w')) =
          (length true_lines + length noise_rows)%nat) /\
       (lines_reference_entries w ->
        records_of tid (conn w) = [] /\ lines_reference_entries w') /\
       ((0 <= proportion cfg <= 1)%Q ->
        exists d,
          r = Ok (tid, d) /\
          length noise_rows =
            length (noise_plan cfg randomString base_amount w) /\
          (length (left d) + length (right d)
           = 2 + length noise_rows)%nat) /\
       ((proportion cfg < 0)%Q \/ (1 < proportion cfg)%Q ->
        noise_rows = [])) /\
  (forall w postfix,
     let w' := snd (new self_name postfix w) in
     extends (JournalEntries (conn w)) (JournalEntries (conn w')) /\
     extends (EntryRecords (conn w)) (EntryRecords (conn w'))) /\
  (forall w name fa_name value tid,
     let w' := snd (addRecord name fa_name value tid w) in
     extends (JournalEntries (conn w)) (JournalEntries (conn w')) /\
     extends (EntryRecords (conn w)) (EntryRecords (conn w'))) /\
  (forall w base_amount id tid,
     let w' := snd (noise cfg randomString base_amount id tid w) in
     extends (JournalEntries (conn w)) (JournalEntries (conn w')) /\
     extends (EntryRecords (conn w)) (EntryRecords (conn w'))) /\
  (forall w postfix base_amount id true_lines,
     let w' := snd (workflow cfg randomString self_name postfix base_amount
                      id true_lines w) in
     extends (JournalEntries (conn w)) (JournalEntries (conn w')) /\
     extends (EntryRecords (conn w)) (EntryRecords (conn w'))) /\
  (forall w postfix base_amount id true_lines,
     let w' := snd (generate cfg randomString self_name postfix base_amount
                      id true_lines w) in
     extends (JournalEntries (conn w)) (JournalEntries (conn w')) /\
     extends (EntryRecords (conn w)) (EntryRecords (conn w'))).
Proof.
  split; [|repeat split].
  - intros postfix base_amount id true_lines w [Hpy Hnp] tid Hid Hb.
    destruct (workflow_cases cfg randomString self_name postfix
                base_amount id true_lines w Hnp Hid Hb)
      as (r & w' & rows & nrows & Hgen & Hje & Her & Hrows & Hok & Hbad).
    fold tid in Hgen, Hje, Hrows, Hok, Hbad.
    destruct (true_rows_lines _ _ _ Hrows) as [Hlines Htid].
    assert (Hntid : Forall (fun r => er_TID r = tid) nrows).
    { destruct (Qlt_le_dec (proportion cfg) 0) as [Hneg|Hp0];
        [|destruct (Qlt_le_dec 1 (proportion cfg)) as [Hbig|Hp1]].
      - rewrite (proj1 (Hbad (or_introl Hneg))). constructor.
      - rewrite (proj1 (Hbad (or_intror Hbig))). constructor.
      - destruct (Hok (conj Hp0 Hp1)) as (d & _ & Hnrows & _).
        exact (noise_rows_tid _ _ _ _ Hnrows). }
    assert (Hread : records_of tid (conn w')
                    = records_of tid (conn w) ++ rows ++ nrows).
    { unfold records_of. rewrite Her, !filter_app.
      rewrite (filter_tid_all _ _ Htid), (filter_tid_all _ _ Hntid).
      reflexivity. }
    assert (Hlen : length rows = length true_lines).
    { rewrite <- (length_map row_line), Hlines. apply length_map. }
    exists r, w', rows, nrows. split; [exact Hgen|].
    split.
    { unfold has_entry. rewrite Hje, existsb_app. cbn.
      rewrite Z.eqb_refl. now rewrite orb_true_r. }
    split; [exact Hread|]. split; [exact Hlines|]. split; [exact Hlen|].
    split; [exact Her|]. split; [|split; [|split]].
    + intro Hnone. rewrite Hread, Hnone. split; [reflexivity|].
      cbn [app]. rewrite length_app. now rewrite Hlen.
    + intro Href. split.
      * apply filter_tid_none.
        eapply Forall_impl; [|exact Href]. cbv beta. intros r0 Hin Heq.
        apply (above_all_not_in _ _ (next_rowid_above (entry_ids w))).
        fold tid. now rewrite <- Heq.
      * unfold lines_reference_entries, entry_ids.
        rewrite Her, Hje, map_app.
        apply Forall_app. split; [|apply Forall_app; split].
        -- eapply Forall_impl; [|exact Href]. cbv beta. intros r0 Hin.
           apply in_or_app. now left.
        -- eapply Forall_impl; [|exact Htid]. cbv beta. intros r0 ->.
           apply in_or_app. right. now left.
        -- eapply Forall_impl; [|exact Hntid]. cbv beta. intros r0 ->.
           apply in_or_app. right. now left.
    + intro Hp. destruct (Hok Hp) as (d & -> & Hnrows & Hl & Hr).
      assert (Hlenn : length nrows
                      = length (noise_plan cfg randomString base_amount w)).
      { rewrite <- (length_map row_payload), Hnrows. apply length_map. }
      exists d. split; [reflexivity|]. split; [exact Hlenn|].
      rewrite Hl, Hr, Hlenn. cbn [length].
      rewrite (amounts_on_partition cfg base_amount); [lia|].
      apply noise_plan_cases. intros. now apply noise_lines_drawn.
    + intro Hinv. exact (proj1 (Hbad Hinv)).
  - apply (ev_entries _ _ (stable_new self_name postfix w)).
  - apply (ev_records _ _ (stable_new self_name postfix w)).
  - apply (ev_entries _ _ (stable_addRecord name fa_name value tid w)).
  - apply (ev_records _ _ (stable_addRecord name fa_name value tid w)).
  - apply (ev_entries _ _
             (stable_noise cfg randomString base_amount id tid w)).
  - apply (ev_records _ _
             (stable_noise cfg randomString base_amount id tid w)).
  - apply (ev_entries _ _
             (stable_workflow cfg randomString self_name postfix
                base_amount id true_lines w)).
  - apply (ev_records _ _
             (stable_workflow cfg randomString self_name postfix
                base_amount id true_lines w)).
  - apply (ev_entries _ _
             (stable_generate cfg randomString self_name postfix
                base_amount id true_lines w)).
  - apply (ev_records _ _
             (stable_generate cfg randomString self_name postfix
                base_amount id true_lines w)).
Qed.

(** C9 in the scenario: two true lines and two noise lines read back as
    four lines. *)
Lemma entry_lines_read_back_witness :
  unit_draws sample_world /\
  int64 (next_rowid (entry_ids sample_world)) = true /\
  forallb line_bindable sample_true_lines = true /\
  lines_reference_entries sample_world /\
  (0 <= proportion sample_config <= 1)%Q /\
  exists r w' true_rows noise_rows,
    workflow sample_config sample_randomString "Sales" (PyInt 1) 100%Q
             (PyInt 7) sample_true_lines sample_world = (r, w') /\
    records_of 1 (conn w') = true_rows ++ noise_rows /\
    map row_line true_rows = map line_value sample_true_lines /\
    length (records_of 1 (conn w')) = (2 + length noise_rows)%nat /\
    exists d,
      r = Ok (1, d) /\
      length noise_rows = 2%nat /\
      (length (left d) + length (right d) = 2 + length noise_rows)%nat.
Proof.
  assert (Href : lines_reference_entries sample_world) by constructor.
  assert (Hp : (0 <= proportion sample_config <= 1)%Q)
    by (split; discriminate).
  split; [exact sample_world_unit_draws|]. split; [reflexivity|].
  split; [reflexivity|]. split; [exact Href|]. split; [exact Hp|].
  destruct (proj1 (entry_lines_read_back sample_config sample_randomString
                     "Sales")
              (PyInt 1) 100%Q (PyInt 7) sample_true_lines sample_world
              sample_world_unit_draws eq_refl eq_refl)
    as (r & w' & rows & nrows & Hgen & _ & _ & Hlines & _ & _ & Hnone
        & Hrefs & Hok & _).
  destruct (Hnone (proj1 (Hrefs Href))) as [Hread Hlen].
  exists r, w', rows, nrows. split; [exact Hgen|]. split; [exact Hread|].
  split; [exact Hlines|]. split; [exact Hlen|]. exact (Hok Hp).
Defined.

(** C1.  [generate] validates before it writes.  With a parameter of the
    configuration outside the range of 4.2 the call raises the
    configuration error; with no true line it raises an error, which is
    the data error when the configuration is in range.  In both cases the
    state is the state before the call: no header and no line has been
    written, no draw taken.  (True lines that do not add up to zero raise
    the data error in the same way.)  With the configuration in range and
    true lines that add up to zero, at least one, the call is the
    algorithm of 4.2. *)
Theorem generate_validates_before_writing (cfg : NoiseConfig)
    (randomString : nat -> (nat -> Q) -> nat -> string * nat)
    (self_name : string) (postfix : PyVal) (base_amount : Q) (id : PyVal)
    (true_lines : list (string * string * PyNum)) (w : World) :
  (~ valid_config cfg ->
   generate cfg randomString self_name postfix base_amount id true_lines w =
     (Raise (ConfigurationError "noise parameter out of range"), w)) /\
  (valid_config cfg -> true_lines = [] ->
   generate cfg randomString self_name postfix base_amount id true_lines w =
     (Raise (DataError "true_lines is empty"), w)) /\
  (true_lines = [] ->
   exists e,
     generate cfg randomString self_name postfix base_amount id true_lines w =
       (Raise e, w)) /\
  (valid_config cfg -> true_lines <> [] -> ~ balanced true_lines ->
   generate cfg randomString self_name postfix base_amount id true_lines w =
     (Raise (DataError "true_lines is unbalanced"), w)) /\
  (valid_config cfg -> true_lines <> [] -> balanced true_lines ->
   generate cfg randomString self_name postfix base_amount id true_lines w =
     workflow cfg randomString self_name postfix base_amount id true_lines w).
Proof.
  pose proof (config_in_range_iff cfg) as Hc. unfold generate, balanced.
  destruct (config_in_range cfg); cbn [negb].
  - assert (Hv : valid_config cfg) by now apply Hc.
    split; [intro H; now destruct H|].
    split; [now intros _ ->|].
    split; [intros ->; eexists; reflexivity|].
    destruct true_lines as [|l rest].
    + split; intros _ Hne; now destruct Hne.
    + cbn [length Nat.eqb].
      destruct (Qeq_bool _ 0) eqn:E; cbn [negb].
      * apply Qeq_bool_iff in E. split; [|reflexivity].
        intros _ _ Hn. now destruct Hn.
      * split; [reflexivity|]. intros _ _ Hb.
        apply Qeq_bool_iff in Hb. congruence.
  - assert (Hv : ~ valid_config cfg) by (intro H; apply Hc in H; discriminate).
    split; [reflexivity|].
    split; [intro H; now destruct Hv|].
    split; [intros _; eexists; reflexivity|].
    split; intro H; now destruct Hv.
Qed.

(** C1 with every parameter out of range, and in the scenario with no true
    line: the database is as empty as before the call. *)
Lemma generate_validates_before_writing_witness :
  ~ valid_config out_of_range_config /\
  valid_config sample_config /\
  generate out_of_range_config sample_randomString "Sales" (PyInt 1) 100%Q
           (PyInt 7) sample_true_lines sample_world =
    (Raise (ConfigurationError "noise parameter out of range"),
     sample_world) /\
  generate sample_config sample_randomString "Sales" (PyInt 1) 100%Q
           (PyInt 7) [] sample_world =
    (Raise (DataError "true_lines is empty"), sample_world) /\
  sample_true_lines <> [] /\
  balanced sample_true_lines /\
  generate sample_config sample_randomString "Sales" (PyInt 1) 100%Q
           (PyInt 7) sample_true_lines sample_world =
    workflow sample_config sample_randomString "Sales" (PyInt 1) 100%Q
             (PyInt 7) sample_true_lines sample_world.
Proof.
  assert (Hbad : ~ valid_config out_of_range_config)
    by (intros [_ [[_ H] _]]; now apply H).
  assert (Hgood : valid_config sample_config)
    by (repeat split; discriminate).
  assert (Hne : sample_true_lines <> []) by discriminate.
  assert (Hbal : balanced sample_true_lines) by reflexivity.
  split; [exact Hbad|]. split; [exact Hgood|]. split; [|split].
  - exact (proj1 (generate_validates_before_writing out_of_range_config
                    sample_randomString "Sales" (PyInt 1) 100%Q (PyInt 7)
                    sample_true_lines sample_world) Hbad).
  - exact (proj1 (proj2 (generate_validates_before_writing sample_config
                           sample_randomString "Sales" (PyInt 1) 100%Q
                           (PyInt 7) [] sample_world)) Hgood eq_refl).
  - split; [exact Hne|]. split; [exact Hbal|].
    exact (proj2 (proj2 (proj2 (proj2
             (generate_validates_before_writing sample_config
                sample_randomString "Sales" (PyInt 1) 100%Q (PyInt 7)
                sample_true_lines sample_world)))) Hgood Hne Hbal).
Defined.

(** * Beyond the claims: the rest of the three modules *)

(** ** Distinct values and dictionaries *)

Lemma PyVal_eqb_eq (a b : PyVal) : PyVal_eqb a b = true <-> a = b.
Proof.
  destruct a as [x|s], b as [y|t]; cbn; split; try discriminate.
  - intro H. apply Z.eqb_eq in H. now subst.
  - intros [= ->]. apply Z.eqb_refl.
  - intro H. apply String.eqb_eq in H. now subst.
  - intros [= ->]. apply String.eqb_refl.
Qed.

Lemma Cell_eqb_eq (a b : Cell) : Cell_eqb a b = true <-> a = b.
Proof.
  destruct a as [x|], b as [y|]; cbn; split; try discriminate;
    try reflexivity.
  - intro H. apply PyVal_eqb_eq in H. now subst.
  - intros [= ->]. now apply PyVal_eqb_eq.
Qed.

Lemma key_eqb_sound (k x : Cell) : key_eqb k x = true -> k = x.
Proof.
  destruct k as [a|], x as [b|]; cbn; try discriminate.
  intro H. apply PyVal_eqb_eq in H. now subst.
Qed.

Section UniqueFacts.

Context {A : Type}.
Variable eqb : A -> A -> bool.
Hypothesis eqb_eq : forall x y, eqb x y = true <-> x = y.

Lemma eqb_same (x : A) : eqb x x = true.
Proof. now apply eqb_eq. Qed.

Lemma Series_unique_In (l : list A) (x : A) :
  In x (Series_unique eqb l) <-> In x l.
Proof.
  induction l as [|y l IH]; cbn; [tauto|].
  rewrite filter_In, IH, negb_true_iff. split.
  - intros [H|[H _]]; auto.
  - intros [H|H]; [now left|].
    destruct (eqb y x) eqn:E; [left; now apply eqb_eq | right; auto].
Qed.

Lemma Series_unique_NoDup (l : list A) : NoDup (Series_unique eqb l).
Proof.
  induction l as [|y l IH]; cbn; constructor.
  - rewrite filter_In, eqb_same. cbn. intros [_ H]. discriminate.
  - now apply NoDup_filter.
Qed.

End UniqueFacts.

Section DictFacts.

Context {A : Type}.
Variable eqb : A -> A -> bool.
Hypothesis eqb_sound : forall x y, eqb x y = true -> x = y.

Lemma eqb_differ (x y : A) : x <> y -> eqb x y = false.
Proof.
  intro H. destruct (eqb x y) eqn:E; [|reflexivity].
  apply eqb_sound in E. contradiction.
Qed.

(** A table of pairs with pairwise distinct keys is its own dictionary. *)
Lemma dict_set_new {V : Type} (k : A) (v : V) (d : list (A * V)) :
  ~ In k (map fst d) -> dict_set eqb k v d = d ++ [(k, v)].
Proof.
  induction d as [|[k' v'] d IH]; cbn; [reflexivity|]. intro H.
  rewrite eqb_differ by (intro; apply H; now left).
  rewrite IH; [reflexivity|]. intro; apply H; now right.
Qed.

Lemma dict_fold_distinct {V : Type} (pairs : list (A * V)) :
  forall d,
    NoDup (map fst (d ++ pairs)) ->
    fold_left (fun d kv => dict_set eqb (fst kv) (snd kv) d) pairs d =
      d ++ pairs.
Proof.
  induction pairs as [|[k v] pairs IH]; intros d H; cbn.
  - now rewrite app_nil_r.
  - rewrite dict_set_new.
    + rewrite IH; rewrite <- app_assoc; [reflexivity | exact H].
    + rewrite map_app in H. cbn in H. apply NoDup_remove_2 in H.
      intro Hin. apply H. apply in_or_app. now left.
Qed.

Lemma dict_distinct {V : Type} (pairs : list (A * V)) :
  NoDup (map fst pairs) -> dict eqb pairs = pairs.
Proof. intro H. unfold dict. now rewrite dict_fold_distinct. Qed.

End DictFacts.

(** ** The encoding of the true labels *)

Lemma first_index_In (x : PyVal) (u : list PyVal) :
  In x u ->
  (first_index x u < length u)%nat /\
  nth_error u (first_index x u) = Some x.
Proof.
  induction u as [|y u IH]; cbn; [tauto|]. intro H.
  destruct (PyVal_eqb y x) eqn:E.
  - apply PyVal_eqb_eq in E. subst. cbn. split; [lia | reflexivity].
  - destruct H as [H|H]; [apply PyVal_eqb_eq in H; congruence|].
    destruct (IH H) as [Hlt Hnth]. cbn. split; [lia | exact Hnth].
Qed.

Lemma first_index_inj (x y : PyVal) (u : list PyVal) :
  In x u -> In y u -> first_index x u = first_index y u -> x = y.
Proof.
  intros Hx Hy E.
  destruct (first_index_In x u Hx) as [_ Nx].
  destruct (first_index_In y u Hy) as [_ Ny].
  rewrite E in Nx. congruence.
Qed.

Lemma first_index_distinct (u : list PyVal) :
  NoDup u -> map (fun x => first_index x u) u = seq 0 (length u).
Proof.
  induction 1 as [|y u Hy Hnd IH]; cbn; [reflexivity|].
  rewrite (proj2 (PyVal_eqb_eq y y) eq_refl). f_equal.
  rewrite <- seq_shift, <- IH, map_map. apply map_ext_in.
  intros x Hx. destruct (PyVal_eqb y x) eqn:E; [|reflexivity].
  apply PyVal_eqb_eq in E. subst. contradiction.
Qed.

Lemma combine_keys {A B : Type} (l : list A) :
  forall l' : list B, length l = length l' -> map fst (combine l l') = l.
Proof.
  induction l as [|x l IH]; intros [|y l'] H; try discriminate; cbn;
    [reflexivity|].
  f_equal. apply IH. now injection H.
Qed.

Lemma dict_get_numbered (x : PyVal) (u : list PyVal) :
  forall a,
    In x u ->
    dict_get key_eqb (Value x)
      (combine (cells u) (map Z.of_nat (seq a (length u)))) =
      Some (Z.of_nat (a + first_index x u)).
Proof.
  induction u as [|y u IH]; intros a H; cbn; [destruct H|].
  destruct (PyVal_eqb y x) eqn:E.
  - now rewrite Nat.add_0_r.
  - destruct H as [H|H]; [apply PyVal_eqb_eq in H; congruence|].
    unfold cells in IH. rewrite (IH (Datatypes.S a) H). do 2 f_equal. lia.
Qed.



Lemma real_labels_numbered (labels : Series) :
  real_labels labels =
    combine (Series_unique Cell_eqb labels)
            (range (length (Series_unique Cell_eqb labels))).
Proof.
  unfold real_labels. cbv zeta. apply (dict_distinct _ key_eqb_sound).
  rewrite combine_keys.
  - apply (Series_unique_NoDup _ Cell_eqb_eq).
  - unfold range. now rewrite length_map, length_seq.
Qed.

Lemma Series_apply_total {B : Type} (f : Cell -> Outcome B)
    (g : Cell -> B) (s : Series) :
  (forall x, In x s -> f x = Returns (g x)) ->
  Series_apply f s = Returns (map g s).
Proof.
  induction s as [|x s IH]; intro H; cbn; [reflexivity|].
  rewrite (H x (or_introl eq_refl)). cbn.
  rewrite IH by (intros y Hy; apply H; now right). reflexivity.
Qed.



Lemma cells_In (x : PyVal) (l : list PyVal) : In (Value x) (cells l) <-> In x l.
Proof.
  unfold cells. rewrite in_map_iff. split.
  - now intros (y & [= ->] & H).
  - intro H. now exists x.
Qed.

Lemma cells_no_NaN (l : list PyVal) : ~ In NaN (cells l).
Proof. unfold cells. rewrite in_map_iff. now intros (y & H & _). Qed.

Section UniqueMap.

Context {A B : Type}.
Variable eqbA : A -> A -> bool.
Variable eqbB : B -> B -> bool.
Hypothesis eqbA_eq : forall x y, eqbA x y = true <-> x = y.
Hypothesis eqbB_eq : forall x y, eqbB x y = true <-> x = y.

Lemma eqb_injective_on (f : A -> B) (x y : A) :
  (f x = f y -> x = y) -> eqbB (f x) (f y) = eqbA x y.
Proof.
  intro Hinj. destruct (eqbA x y) eqn:E.
  - apply eqbA_eq in E. subst. now apply eqbB_eq.
  - destruct (eqbB (f x) (f y)) eqn:E'; [|reflexivity].
    apply eqbB_eq, Hinj, eqbA_eq in E'. congruence.
Qed.

Lemma filter_map_injective_on (f : A -> B) (x : A) (u : list A) :
  (forall y, In y u -> f x = f y -> x = y) ->
  filter (fun y => negb (eqbB (f x) y)) (map f u) =
    map f (filter (fun y => negb (eqbA x y)) u).
Proof.
  induction u as [|y u IH]; intro Hinj; cbn; [reflexivity|].
  rewrite (eqb_injective_on f x y) by (apply Hinj; now left).
  rewrite IH by (intros z Hz; apply Hinj; now right).
  now destruct (eqbA x y).
Qed.

(** Renaming the values one to one renames the distinct values. *)
Lemma Series_unique_map (f : A -> B) (l : list A) :
  (forall x y, In x l -> In y l -> f x = f y -> x = y) ->
  Series_unique eqbB (map f l) = map f (Series_unique eqbA l).
Proof.
  induction l as [|x l IH]; intro Hinj; cbn; [reflexivity|]. f_equal.
  rewrite IH by (intros a b Ha Hb; apply Hinj; now right).
  apply filter_map_injective_on. intros y Hy.
  apply Hinj; [now left|]. right.
  exact (proj1 (Series_unique_In eqbA eqbA_eq l y) Hy).
Qed.

End UniqueMap.

(** The distinct values of a column of values. *)
Lemma Series_unique_cells (l : list PyVal) :
  Series_unique Cell_eqb (cells l) = cells (Series_unique PyVal_eqb l).
Proof.
  apply (Series_unique_map PyVal_eqb Cell_eqb PyVal_eqb_eq Cell_eqb_eq).
  now intros x y _ _ [= ->].
Qed.

(** On a column of values the number of a label is the position of its
    first appearance among the distinct labels, and the lookup finds every
    label of the column. *)
Lemma true_values_run (labels : list PyVal) :
  true_values (cells labels) =
    Returns
      (map (fun x =>
              Z.of_nat (first_index x (Series_unique PyVal_eqb labels)))
           labels).
Proof.
  unfold true_values.
  rewrite (Series_apply_total _
             (fun c =>
                match c with
                | Value x =>
                    Z.of_nat
                      (first_index x (Series_unique PyVal_eqb labels))
                | NaN => 0
                end)).
  - unfold cells. now rewrite map_map.
  - intros [x|] Hx; [|now destruct (cells_no_NaN labels)].
    apply cells_In in Hx.
    unfold real_labels_getitem. rewrite real_labels_numbered.
    rewrite Series_unique_cells. unfold range, cells at 2.
    rewrite length_map, dict_get_numbered; [reflexivity|].
    now apply (Series_unique_In _ PyVal_eqb_eq).
Qed.





(** ** Keys of the dictionary of scores *)

Lemma length_append (s p : string) :
  String.length (s ++ p) = (String.length s + String.length p)%nat.
Proof. induction s as [|a s IH]; cbn; [reflexivity | now rewrite IH]. Qed.

Lemma append_cancel_r (p : string) (s1 : string) :
  forall s2, (s1 ++ p)%string = (s2 ++ p)%string -> s1 = s2.
Proof.
  induction s1 as [|a s1 IH]; intros [|b s2] H; cbn in H.
  - reflexivity.
  - apply (f_equal String.length) in H. cbn in H.
    rewrite length_append in H. lia.
  - apply (f_equal String.length) in H. cbn in H.
    rewrite length_append in H. lia.
  - injection H as -> H. f_equal. now apply IH.
Qed.

Lemma eqb_append_r (s1 s2 p : string) :
  String.eqb (s1 ++ p) (s2 ++ p) = String.eqb s1 s2.
Proof.
  destruct (String.eqb_spec s1 s2) as [->|Hne].
  - apply String.eqb_refl.
  - apply String.eqb_neq. intro H. apply Hne.
    exact (append_cancel_r p s1 s2 H).
Qed.

(** ** Columns *)


Lemma getitem_present (df : DataFrame) (column : string) :
  In column (columns df) -> exists s, getitem df column = Returns s.
Proof.
  induction df as [|[c s] df IH]; cbn; [tauto|]. intro H.
  destruct (String.eqb_spec c column) as [->|Hne]; [now exists s|].
  apply IH. destruct H; [contradiction | assumption].
Qed.

(** ** Properties of evaluation.py *)



(** X2.  On a column without missing values the numbers are handed out
    in order of first appearance: the distinct numbers of the rows, in the
    order the rows bring them, are 0, 1, ..., k - 1 for k distinct labels;
    so every number is below k and every number below k is used. *)
Theorem true_values_numbers_in_order (labels : list PyVal) :
  let k := length (Series_unique PyVal_eqb labels) in
  exists codes,
    true_values (cells labels) = Returns codes /\
    Series_unique Z.eqb codes = range k /\
    Forall (fun c => 0 <= c < Z.of_nat k) codes.
Proof.
  intro k. eexists. split; [apply true_values_run|].
  set (U := Series_unique PyVal_eqb labels).
  assert (HU : forall x, In x labels -> In x U)
    by (intro x; apply (Series_unique_In _ PyVal_eqb_eq)).
  split.
  - rewrite (Series_unique_map PyVal_eqb Z.eqb PyVal_eqb_eq Z.eqb_eq).
    + fold U. unfold range, k. fold U.
      rewrite <- (first_index_distinct U), map_map; [reflexivity|].
      apply (Series_unique_NoDup _ PyVal_eqb_eq).
    + intros x y Hx Hy H. apply Nat2Z.inj in H.
      exact (first_index_inj x y U (HU x Hx) (HU y Hy) H).
  - apply Forall_map, Forall_forall. intros x Hx.
    destruct (first_index_In x U (HU x Hx)) as [Hlt _]. unfold k. fold U. lia.
Qed.

(** ** The scores *)

Section EvaluationFacts.

Variable adjusted_rand_score : list Z -> Series -> Outcome Q.
Variable adjusted_mutual_info_score :
  list Z -> Series -> string -> Outcome Q.
Variable v_measure_score : list Z -> Series -> Outcome Q.
Variable fowlkes_mallows_score : list Z -> Series -> Outcome Q.

(** [evaluate_all] through the four single functions. *)
Lemma evaluate_all_run (df : DataFrame)
    (column_true column_pred postfix : string) (full_names : bool) :
  evaluate_all adjusted_rand_score adjusted_mutual_info_score
    v_measure_score fowlkes_mallows_score df column_true column_pred postfix
    full_names =
    (ari <- adjusted_rand_index adjusted_rand_score df column_true
              column_pred ;;
     ami <- adjusted_mutual_info adjusted_mutual_info_score df column_true
              column_pred ;;
     vm <- v_measure v_measure_score df column_true column_pred ;;
     fmi <- fowlkes_mallows_index fowlkes_mallows_score df column_true
              column_pred ;;
     Returns
       (combine (map (fun k => (k ++ postfix)%string)
                     (score_keys full_names))
                [ari; ami; vm; fmi]))%outcome.
Proof.
  unfold evaluate_all, adjusted_rand_index, adjusted_mutual_info, v_measure,
    fowlkes_mallows_index.
  destruct (getitem df column_true) as [labels|e]; [|reflexivity].
  cbn [and_then].
  destruct (true_values labels) as [codes|e]; [|reflexivity].
  cbn [and_then].
  destruct (getitem df column_pred) as [preds|e]; [|reflexivity].
  cbn [and_then].
  destruct (adjusted_rand_score codes preds) as [ari|e];
    [|destruct full_names; reflexivity].
  destruct (adjusted_mutual_info_score codes preds "arithmetic") as [ami|e];
    [|destruct full_names; reflexivity].
  destruct (v_measure_score codes preds) as [vm|e];
    [|destruct full_names; reflexivity].
  destruct (fowlkes_mallows_score codes preds) as [fmi|e];
    [|destruct full_names; reflexivity].
  destruct full_names; cbn [and_then dict_set]; rewrite !eqb_append_r;
    reflexivity.
Qed.

(** X3.  The dictionary of [evaluate_all] always has four entries, in the
    order ARI, AMI, V-measure, FMI, whatever the postfix and the naming:
    the four keys never coincide.  Its values are what the four single
    functions return, with the first error of those raised in their place;
    [overall_score] is the list of these four values. *)
Theorem evaluate_all_has_four_scores (df : DataFrame)
    (column_true column_pred postfix : string) (full_names : bool) :
  evaluate_all adjusted_rand_score adjusted_mutual_info_score
    v_measure_score fowlkes_mallows_score df column_true column_pred postfix
    full_names =
    (ari <- adjusted_rand_index adjusted_rand_score df column_true
              column_pred ;;
     ami <- adjusted_mutual_info adjusted_mutual_info_score df column_true
              column_pred ;;
     vm <- v_measure v_measure_score df column_true column_pred ;;
     fmi <- fowlkes_mallows_index fowlkes_mallows_score df column_true
              column_pred ;;
     Returns
       (if full_names
        then [("Adjusted Rand index" ++ postfix, ari);
              ("Adjusted Mutual Information" ++ postfix, ami);
              ("V-measure" ++ postfix, vm);
              ("Fowlkes-Mallows index" ++ postfix, fmi)]
        else [("ARI" ++ postfix, ari); ("AMI" ++ postfix, ami);
              ("V-M" ++ postfix, vm); ("FMI" ++ postfix, fmi)]))%outcome
      %string /\
  overall_score adjusted_rand_score adjusted_mutual_info_score
    v_measure_score fowlkes_mallows_score df column_true column_pred =
    (ari <- adjusted_rand_index adjusted_rand_score df column_true
              column_pred ;;
     ami <- adjusted_mutual_info adjusted_mutual_info_score df column_true
              column_pred ;;
     vm <- v_measure v_measure_score df column_true column_pred ;;
     fmi <- fowlkes_mallows_index fowlkes_mallows_score df column_true
              column_pred ;;
     Returns [ari; ami; vm; fmi])%outcome.
Proof.
  unfold overall_score. rewrite !evaluate_all_run. split.
  - destruct full_names; reflexivity.
  - repeat match goal with
           | |- context [and_then ?c _] =>
               lazymatch c with
               | and_then _ _ => fail
               | _ => destruct c as [?|?]; cbn [and_then]; try reflexivity
               end
           end.
Qed.

(** X4.  When [evaluate_all] returns, looking up a score under its key,
    the short or full name followed by the postfix, gives what the single
    function of that score returns. *)
Theorem evaluate_all_lookup (df : DataFrame)
    (column_true column_pred postfix : string) (full_names : bool)
    (d : list (string * Q)) :
  evaluate_all adjusted_rand_score adjusted_mutual_info_score
    v_measure_score fowlkes_mallows_score df column_true column_pred postfix
    full_names = Returns d ->
  exists ari ami vm fmi,
    adjusted_rand_index adjusted_rand_score df column_true column_pred =
      Returns ari /\
    adjusted_mutual_info adjusted_mutual_info_score df column_true
      column_pred = Returns ami /\
    v_measure v_measure_score df column_true column_pred = Returns vm /\
    fowlkes_mallows_index fowlkes_mallows_score df column_true column_pred =
      Returns fmi /\
    map (fun k => dict_get String.eqb (k ++ postfix)%string d)
        (score_keys full_names) =
      [Some ari; Some ami; Some vm; Some fmi] /\
    length d = 4%nat.
Proof.
  rewrite evaluate_all_run.
  destruct (adjusted_rand_index _ _ _ _) as [ari|e]; [|discriminate].
  destruct (adjusted_mutual_info _ _ _ _) as [ami|e]; [|discriminate].
  destruct (v_measure _ _ _ _) as [vm|e]; [|discriminate].
  destruct (fowlkes_mallows_index _ _ _ _) as [fmi|e]; [|discriminate].
  cbn [and_then]. intros [= <-]. exists ari, ami, vm, fmi.
  repeat (split; [reflexivity|]).
  destruct full_names; cbn [score_keys map combine dict_get length];
    rewrite !eqb_append_r; split; reflexivity.
Qed.



End EvaluationFacts.




(** X4 on the frame of the scenario with the postfix "_run1": the true
    numbers are 0, 1, 0, 2, 1 and four of the five rows agree. *)
Lemma evaluate_all_lookup_witness :
  evaluate_all sample_score sample_score_with_method sample_score
    sample_score sample_frame "GroundTruth" "label" "_run1" false =
    Returns [("ARI_run1"%string, 4%Q); ("AMI_run1"%string, 4%Q);
             ("V-M_run1"%string, 4%Q); ("FMI_run1"%string, 4%Q)] /\
  exists ari ami vm fmi,
    adjusted_rand_index sample_score sample_frame "GroundTruth" "label" =
      Returns ari /\
    adjusted_mutual_info sample_score_with_method sample_frame "GroundTruth"
      "label" = Returns ami /\
    v_measure sample_score sample_frame "GroundTruth" "label" =
      Returns vm /\
    fowlkes_mallows_index sample_score sample_frame "GroundTruth" "label" =
      Returns fmi /\
    map (fun k =>
           dict_get String.eqb (k ++ "_run1")%string
             [("ARI_run1"%string, 4%Q); ("AMI_run1"%string, 4%Q);
              ("V-M_run1"%string, 4%Q); ("FMI_run1"%string, 4%Q)])
        (score_keys false) =
      [Some ari; Some ami; Some vm; Some fmi] /\
    length [("ARI_run1"%string, 4%Q); ("AMI_run1"%string, 4%Q);
            ("V-M_run1"%string, 4%Q); ("FMI_run1"%string, 4%Q)] = 4%nat.
Proof.
  assert (H : evaluate_all sample_score sample_score_with_method sample_score
                sample_score sample_frame "GroundTruth" "label" "_run1" false
              = Returns [("ARI_run1"%string, 4%Q); ("AMI_run1"%string, 4%Q);
                         ("V-M_run1"%string, 4%Q); ("FMI_run1"%string, 4%Q)])
    by reflexivity.
  split; [exact H|].
  exact (evaluate_all_lookup sample_score sample_score_with_method
           sample_score sample_score sample_frame "GroundTruth" "label"
           "_run1" false _ H).
Defined.



(** ** Properties of prepare_data.py *)

(** X7.  The four flags are four independent passes: one call of
    [prepare_data] with several flags set returns (or raises) what four
    calls in a row return, each with one of the flags and the others
    [False], in the order split, add_from, norm, unique. *)
Theorem prepare_data_pass_by_pass
    (normalize split_to_debit_credit add_from_column unique_BPs :
       DataFrame -> Outcome DataFrame)
    (original_df : DataFrame) (split add_from norm unique : bool) :
  let prepare :=
    prepare_data normalize split_to_debit_credit add_from_column
                 unique_BPs in
  prepare original_df split add_from norm unique =
    (df <- prepare original_df split false false false ;;
     df <- prepare df false add_from false false ;;
     df <- prepare df false false norm false ;;
     prepare df false false false unique)%outcome.
Proof.
  cbv zeta. unfold prepare_data. cbn [andb].
  destruct (split && _);
    [destruct (split_to_debit_credit original_df) as [d1|e];
     [|reflexivity] |];
    cbn [and_then];
    (destruct add_from;
     [match goal with
      | |- context [add_from_column ?d] =>
          destruct (add_from_column d) as [d2|e]; [|reflexivity]
      end |]);
    cbn [and_then];
    (destruct norm;
     [match goal with
      | |- context [normalize ?d] =>
          destruct (normalize d) as [d3|e]; [|reflexivity]
      end |]);
    cbn [and_then];
    (destruct unique;
     [match goal with
      | |- context [unique_BPs ?d] =>
          destruct (unique_BPs d) as [d4|e]; reflexivity
      end | reflexivity]).
Qed.

(** ** Further properties of Transaction.py *)

Lemma noise_lines_sides (cfg : NoiseConfig)
    (randomString : nat -> (nat -> Q) -> nat -> string * nat)
    (base_amount : Q) (w : World) :
  Forall (fun l => nl_side l = "left"%string \/ nl_side l = "right"%string)
         (noise_plan cfg randomString base_amount w).
Proof.
  apply noise_plan_cases. intros k. induction k as [|k IH]; intros i j;
    cbn [noise_lines]; [constructor|].
  destruct (randomString 6%nat _ i) as [s c]. constructor; [|apply IH].
  cbn [nl_side]. destruct (Qlt_bool _ _); auto.
Qed.

Lemma signed_amounts_sum (ls : list NoiseLine) :
  Forall (fun l => nl_side l = "left"%string \/ nl_side l = "right"%string)
         ls ->
  (Qsum (map (fun l => if String.eqb (nl_side l) "left"
                       then - nl_amount l else nl_amount l) ls)
   == Qsum (amounts_on "right" ls) - Qsum (amounts_on "left" ls))%Q.
Proof.
  unfold amounts_on, Qsum.
  induction 1 as [|l ls [Hl|Hl] _ IH]; cbn; [ring| |]; rewrite Hl; cbn;
    rewrite IH; ring.
Qed.

Lemma noise_row_values (id : PyVal) (tid : Z) (rows : list EntryRecord)
    (lines : list NoiseLine) :
  map row_payload rows = map (line_payload id tid) lines ->
  map er_Value rows =
    map (fun l => if String.eqb (nl_side l) "left"
                  then (- nl_amount l)%Q else nl_amount l) lines.
Proof.
  intro H. transitivity (map snd (map row_payload rows));
    [now rewrite map_map|].
  now rewrite H, map_map.
Qed.

(** X9.  The amounts a call of [noise] stores add up to the total of the
    list it returns under "right" minus the total of the list under "left":
    the returned dictionary accounts for exactly what the call has put on
    the books. *)
Theorem noise_net_amount (cfg : NoiseConfig)
    (randomString : nat -> (nat -> Q) -> nat -> string * nat)
    (base_amount : Q) (id : PyVal) (tid : Z) (w : World) :
  unit_draws w ->
  writable w tid ->
  exists r w' rows,
    noise cfg randomString base_amount id tid w = (r, w') /\
    EntryRecords (conn w') = EntryRecords (conn w) ++ rows /\
    forall d,
      r = Ok d ->
      (Qsum (map er_Value rows) == Qsum (right d) - Qsum (left d))%Q.
Proof.
  intros [_ Hnp] Hw.
  destruct (noise_cases cfg randomString base_amount id tid w Hnp Hw)
    as (r & w' & rows & Hrun & _ & Her & Hok & Hbad).
  exists r, w', rows. split; [exact Hrun|]. split; [exact Her|].
  intros d ->.
  destruct (Qlt_le_dec (proportion cfg) 0) as [Hneg|Hp0];
    [|destruct (Qlt_le_dec 1 (proportion cfg)) as [Hbig|Hp1]].
  - destruct (Hbad (or_introl Hneg)) as (-> & Hd & _).
    rewrite (Hd d eq_refl). reflexivity.
  - destruct (Hbad (or_intror Hbig)) as (-> & Hd & _).
    rewrite (Hd d eq_refl). reflexivity.
  - destruct (Hok (conj Hp0 Hp1)) as (d' & [= <-] & Hrows & Hl & Hr).
    rewrite (noise_row_values _ _ _ _ Hrows), Hl, Hr.
    rewrite (signed_amounts_sum _
               (noise_lines_sides cfg randomString base_amount w)).
    unfold Qsum. cbn [fold_right]. ring.
Qed.

(** X9 in the scenario: - 1000/110 + 100/110 on the books, 100/110 under
    "right" and 1000/110 under "left". *)
Lemma noise_net_amount_witness :
  unit_draws sample_world /\
  writable sample_world 1 /\
  exists r w' rows,
    noise sample_config sample_randomString 100%Q (PyInt 7) 1 sample_world =
      (r, w') /\
    EntryRecords (conn w') = EntryRecords (conn sample_world) ++ rows /\
    forall d,
      r = Ok d ->
      (Qsum (map er_Value rows) == Qsum (right d) - Qsum (left d))%Q.
Proof.
  assert (Hw : writable sample_world 1)
    by (split; [reflexivity | left; reflexivity]).
  split; [exact sample_world_unit_draws|]. split; [exact Hw|].
  exact (noise_net_amount sample_config sample_randomString 100%Q (PyInt 7)
           1 sample_world sample_world_unit_draws Hw).
Defined.

Lemma drawn_amount_below (cfg : NoiseConfig) (base_amount : Q)
    (l : NoiseLine) :
  (0 <= base_amount)%Q -> (0 <= noise_amplitude cfg)%Q ->
  drawn_line cfg base_amount l ->
  (nl_amount l <= base_amount * noise_amplitude cfg)%Q.
Proof.
  intros Hb Ha [_ (u & Hu0 & Hu1 & ->)].
  assert (E : (base_amount * (0 + (noise_amplitude cfg - 0) * u)
               == u * (base_amount * noise_amplitude cfg))%Q) by ring.
  rewrite E.
  rewrite <- (Qmult_1_l (base_amount * noise_amplitude cfg)) at 2.
  apply Qmult_le_compat_r.
  - now apply Qlt_le_weak.
  - now apply Qmult_le_0_compat.
Qed.

Lemma Forall2_left {A B : Type} (R : A -> B -> Prop) (P : A -> Prop)
    (xs : list A) (ys : list B) :
  Forall2 R xs ys -> (forall x y, R x y -> P x) -> Forall P xs.
Proof.
  induction 1 as [|x y xs ys Hxy _ IH]; intro HP; constructor; eauto.
Qed.

(** X10.  No noise line is larger than the base amount times the noise
    amplitude: for a base amount and an amplitude that are not negative
    every stored noise value lies between minus that product and the
    product, ends included. *)
Theorem noise_amounts_are_bounded (cfg : NoiseConfig)
    (randomString : nat -> (nat -> Q) -> nat -> string * nat)
    (base_amount : Q) (id : PyVal) (tid : Z) (w : World) :
  unit_draws w ->
  writable w tid ->
  (0 <= base_amount)%Q ->
  (0 <= noise_amplitude cfg)%Q ->
  let bound := (base_amount * noise_amplitude cfg)%Q in
  exists r w' rows,
    noise cfg randomString base_amount id tid w = (r, w') /\
    EntryRecords (conn w') = EntryRecords (conn w) ++ rows /\
    Forall (fun row => (- bound <= er_Value row)%Q /\
                       (er_Value row <= bound)%Q) rows.
Proof.
  intros [Hpy Hnp] Hw Hb Ha bound.
  destruct (noise_cases cfg randomString base_amount id tid w Hnp Hw)
    as (r & w' & rows & Hrun & _ & Her & Hok & Hbad).
  exists r, w', rows. split; [exact Hrun|]. split; [exact Her|].
  destruct (Qlt_le_dec (proportion cfg) 0) as [Hneg|Hp0];
    [|destruct (Qlt_le_dec 1 (proportion cfg)) as [Hbig|Hp1]].
  - destruct (Hbad (or_introl Hneg)) as (-> & _). constructor.
  - destruct (Hbad (or_intror Hbig)) as (-> & _). constructor.
  - destruct (Hok (conj Hp0 Hp1)) as (d & _ & Hrows & _).
    assert (Hdrawn : Forall (drawn_line cfg base_amount)
                            (noise_plan cfg randomString base_amount w)).
    { apply noise_plan_cases. intros. now apply noise_lines_drawn. }
    pose proof (Forall2_and_right _ _ _ _ (map_eq_Forall2 _ _ _ _ Hrows)
                  Hdrawn) as HF.
    assert (H0 : (0 <= bound)%Q) by (now apply Qmult_le_0_compat).
    eapply Forall2_left; [exact HF|]. cbv beta.
    intros row l [Hpay Hd].
    pose proof (drawn_amount_nonneg cfg base_amount l Hb Ha Hd) as Hn.
    pose proof (drawn_amount_below cfg base_amount l Hb Ha Hd) as Hle.
    unfold row_payload, line_payload in Hpay.
    injection Hpay as _ _ _ ->. fold bound in Hle.
    destruct (String.eqb (nl_side l) "left"); split.
    + now apply Qopp_le_compat.
    + apply Qle_trans with 0%Q; [|exact H0].
      now apply (Qopp_le_compat 0).
    + apply Qle_trans with 0%Q; [|exact Hn].
      now apply (Qopp_le_compat 0).
    + exact Hle.
Qed.

(** X10 in the scenario: base amount 100 and amplitude 1/10, every noise
    value is between - 10 and 10. *)
Lemma noise_amounts_are_bounded_witness :
  unit_draws sample_world /\
  writable sample_world 1 /\
  (0 <= 100)%Q /\
  (0 <= noise_amplitude sample_config)%Q /\
  exists r w' rows,
    noise sample_config sample_randomString 100%Q (PyInt 7) 1 sample_world =
      (r, w') /\
    EntryRecords (conn w') = EntryRecords (conn sample_world) ++ rows /\
    Forall (fun row => (- (100 * (1 # 10)) <= er_Value row)%Q /\
                       (er_Value row <= 100 * (1 # 10))%Q) rows.
Proof.
  assert (Hw : writable sample_world 1)
    by (split; [reflexivity | left; reflexivity]).
  assert (Hb : (0 <= 100)%Q) by discriminate.
  assert (Ha : (0 <= noise_amplitude sample_config)%Q) by discriminate.
  split; [exact sample_world_unit_draws|]. split; [exact Hw|].
  split; [exact Hb|]. split; [exact Ha|].
  exact (noise_amounts_are_bounded sample_config sample_randomString 100%Q
           (PyInt 7) 1 sample_world sample_world_unit_draws Hw Hb Ha).
Defined.

(** X11.  A number amplitude of at most 1 switches the noise off: whatever
    the frequency, the proportion and the draws, [noise] then returns the
    two initial lists, stores nothing and takes no draw of numpy (the
    count [int(random.uniform(0, num_amplitude))] is 0). *)
Theorem noise_needs_num_amplitude_above_one (cfg : NoiseConfig)
    (randomString : nat -> (nat -> Q) -> nat -> string * nat)
    (base_amount : Q) (id : PyVal) (tid : Z) (w : World) :
  unit_tape (tape (random w)) ->
  (num_amplitude cfg <= 1)%Q ->
  exists w',
    noise cfg randomString base_amount id tid w =
      (Ok (mkNoiseDict [0%Q] [0%Q]), w') /\
    conn w' = conn w /\
    np_random w' = np_random w.
Proof.
  intros Hpy Ha. rewrite noise_unfold. cbv zeta.
  destruct (Hpy (pos (random w) + 1)%nat) as [Hv0 Hv1].
  assert (Hc : Z.to_nat
                 (noise_count cfg (tape (random w) (pos (random w) + 1)%nat))
               = 0%nat).
  { destruct (Qlt_le_dec 0 (num_amplitude cfg)) as [Hpos|Hneg].
    - destruct (noise_count_bounds cfg _ Hv0 Hv1 Hpos) as [H0 H1].
      assert (H2 : (inject_Z (noise_count cfg
                      (tape (random w) (pos (random w) + 1)%nat)) < 1)%Q)
        by (eapply Qlt_le_trans; eassumption).
      change 1%Q with (inject_Z 1) in H2. rewrite <- Zlt_Qlt in H2. lia.
    - pose proof (noise_count_nonpos cfg _ Hv0 Hneg). lia. }
  rewrite Hc. destruct (Qlt_bool _ (freq cfg)); eexists; repeat split.
Qed.

(** X11 with the number amplitude 1 and the frequency 1. *)
Lemma noise_needs_num_amplitude_above_one_witness :
  unit_tape (tape (random sample_world)) /\
  (num_amplitude (mkNoiseConfig 1 1 (1 # 10) (1 # 2)) <= 1)%Q /\
  exists w',
    noise (mkNoiseConfig 1 1 (1 # 10) (1 # 2)) sample_randomString 100%Q
          (PyInt 7) 1 sample_world =
      (Ok (mkNoiseDict [0%Q] [0%Q]), w') /\
    conn w' = conn sample_world /\
    np_random w' = np_random sample_world.
Proof.
  assert (Ha : (num_amplitude (mkNoiseConfig 1 1 (1 # 10) (1 # 2)) <= 1)%Q)
    by discriminate.
  split; [exact sample_tape_unit|]. split; [exact Ha|].
  exact (noise_needs_num_amplitude_above_one
           (mkNoiseConfig 1 1 (1 # 10) (1 # 2)) sample_randomString 100%Q
           (PyInt 7) 1 sample_world sample_tape_unit Ha).
Defined.




